(** * sqsmover: the batch transfer loop of [cmd/sqs/main.go]

    A shallow embedding of [moveMessages], of the two entry translators
    [convertToEntries] and [convertSuccessfulMessageToBatchRequestEntry],
    and of the guard in [main] that decides whether the transfer starts.

    The SQS client [svc] is an interface over an abstract service state;
    every call the loop makes is recorded, with its request and its
    response, in the trace of the iteration that made it. *)

From stdpp Require Import base list strings gmap.
From Stdlib Require Import ZArith Lia.

Local Open Scope Z_scope.

(** ** Go's [int] *)

Module GoInt.

(** [int] is 64 bits wide on the platforms the binary is released for. *)
Definition min_int : Z := - 2 ^ 63.
Definition max_int : Z := 2 ^ 63 - 1.

(** Two's complement wrap-around of an arithmetic result. *)
Definition wrap (z : Z) : Z := (z + 2 ^ 63) mod 2 ^ 64 - 2 ^ 63.

(** [x + y] on [int]. *)
Definition add (x y : Z) : Z := wrap (x + y).

(** [len(s)] of a slice. *)
Definition len {A} (s : list A) : Z := Z.of_nat (length s).

End GoInt.

(** ** The data of the SQS SDK that the program touches

    A [*string] field is an [option string]: [None] is the nil pointer. *)

Module sqs.

Record Message := {
  Body : option string;
  MessageId : option string;
  ReceiptHandle : option string;
}.

Record SendMessageBatchRequestEntry := {
  SendEntry_MessageBody : option string;
  SendEntry_Id : option string;
}.

Record DeleteMessageBatchRequestEntry := {
  DeleteEntry_ReceiptHandle : option string;
  DeleteEntry_Id : option string;
}.

(** An entry of a [Successful] list of a batch response. *)
Record BatchResultEntry := {
  Result_Id : option string;
}.

(** An entry of a [Failed] list of a batch response. *)
Record BatchResultErrorEntry := {
  Error_Id : option string;
  Error_Code : option string;
}.

Record ReceiveMessageInput := {
  Receive_QueueUrl : option string;
  VisibilityTimeout : option Z;
  WaitTimeSeconds : option Z;
  MaxNumberOfMessages : option Z;
}.

(** [Messages []*Message]: the SDK fills the slice with the messages it
    decoded, none of its elements is nil. *)
Record ReceiveMessageOutput := {
  Messages : list Message;
}.

(** A slice of pointers: a slot that was never assigned is [None]. *)
Record SendMessageBatchInput := {
  Send_QueueUrl : option string;
  Send_Entries : list (option SendMessageBatchRequestEntry);
}.

Record SendMessageBatchOutput := {
  Send_Successful : list BatchResultEntry;
  Send_Failed : list BatchResultErrorEntry;
}.

Record DeleteMessageBatchInput := {
  Delete_Entries : list (option DeleteMessageBatchRequestEntry);
  Delete_QueueUrl : option string;
}.

Record DeleteMessageBatchOutput := {
  Delete_Successful : list BatchResultEntry;
  Delete_Failed : list BatchResultErrorEntry;
}.

End sqs.
Import sqs.

(** Go's [error] values, as [logAwsError] tells them apart. *)
Inductive error :=
| AwsErr (code message : string)
| PlainErr (text : string).

(** ** The translators *)

(** [for i, x := range l { acc = body i x acc }], counting from [i]. *)
Fixpoint for_range {A B} (body : nat → A → B → B) (i : nat) (l : list A) (acc : B) : B :=
  match l with
  | [] => acc
  | x :: l' => for_range body (S i) l' (body i x acc)
  end.

(** [make([]*T, n)]: [n] nil pointers. *)
Definition make {T} (n : nat) : list (option T) := replicate n None.

Definition send_entry_of (message : Message) : SendMessageBatchRequestEntry :=
  {| SendEntry_MessageBody := Body message;
     SendEntry_Id := MessageId message |}.

Definition delete_entry_of (message : Message) : DeleteMessageBatchRequestEntry :=
  {| DeleteEntry_ReceiptHandle := ReceiptHandle message;
     DeleteEntry_Id := MessageId message |}.

Definition convertToEntries (messages : list Message)
  : list (option SendMessageBatchRequestEntry) :=
  let result := make (length messages) in
  for_range (λ i message result, <[i := Some (send_entry_of message)]> result)
            0%nat messages result.

Definition convertSuccessfulMessageToBatchRequestEntry (messages : list Message)
  : list (option DeleteMessageBatchRequestEntry) :=
  let result := make (length messages) in
  for_range (λ i message result, <[i := Some (delete_entry_of message)]> result)
            0%nat messages result.

(** ** The SQS client

    [svc *sqs.SQS] is used through three methods.  Each takes the request and
    the state of the service and gives back the two results of the Go call,
    the output and the [error] ([None] is [nil]), with the service's next
    state.  The SDK allocates the output before it sends the request, so the
    output is there even when the error is not nil. *)

Class SQSAPI (σ : Type) := {
  ReceiveMessage : ReceiveMessageInput → σ → ReceiveMessageOutput * option error * σ;
  SendMessageBatch : SendMessageBatchInput → σ → SendMessageBatchOutput * option error * σ;
  DeleteMessageBatch : DeleteMessageBatchInput → σ → DeleteMessageBatchOutput * option error * σ;
}.

(** ** What the program does that can be observed *)

(** The lines written through [log.Info]; colours are left out. *)
Inductive InfoLine :=
| NothingToMove                    (* "Looks like nothing to move. Done." *)
| StartingToMove                   (* "Starting to move messages..." *)
| DoneMoved (count : Z).           (* "Done. Moved %s messages" *)

(** The lines written through [log.Error]. *)
Inductive ErrorLine :=
| AwsFailure (message : string) (cause : string)  (* [logAwsError] *)
| FailedToEnqueue (failed : Z)
| NotDeleted (failed : list BatchResultErrorEntry).

Inductive Event :=
| Receive (input : ReceiveMessageInput) (output : ReceiveMessageOutput) (err : option error)
| Send (input : SendMessageBatchInput) (output : SendMessageBatchOutput) (err : option error)
| Delete (input : DeleteMessageBatchInput) (output : DeleteMessageBatchOutput) (err : option error)
| LogInfo (line : InfoLine)
| LogError (line : ErrorLine)
| Render (value total : Z).

(** ** The progress bar

    The bar keeps [float64] numbers.  Both are conversions of an [int] of the
    program; the model keeps that [int]: the conversion is monotone, and exact
    below [2 ^ 53]. *)

Record Bar := {
  Total : Z;
  value : Z;
}.

(** [progress.NewInt(total)] *)
Definition NewInt (total : Z) : Bar := {| Total := total; value := 0 |}.

(** [b.Total = float64(v)] *)
Definition set_Total (v : Z) (b : Bar) : Bar := {| Total := v; value := value b |}.

(** [b.ValueInt(v)] *)
Definition ValueInt (v : Z) (b : Bar) : Bar := {| Total := Total b; value := v |}.

(** ** The loop *)

(** The variables that live across iterations. *)
Record LoopState := {
  messagesProcessed : Z;
  b : Bar;
}.

(** The six [return] statements inside the [for]. *)
Inductive Exit :=
| Drained              (* line 164, after "Done. Moved ..." *)
| ReceiveFailed        (* line 169 *)
| SendFailed           (* line 181 *)
| EnqueueFailed        (* line 186 *)
| DeleteFailed         (* line 199 *)
| DeleteIncomplete.    (* line 204 *)

(** How one pass through the body ends: at the closing brace, with the
    variables as they are then, or at a [return]. *)
Inductive Flow :=
| Next (st : LoopState)
| Return (site : Exit).

Definition cause_of (err : error) : string :=
  match err with
  | AwsErr _ message => message     (* [awsErr.Message()] *)
  | PlainErr text => text           (* [err.Error()] *)
  end.

Section Program.
Context {σ : Type} {svc : SQSAPI σ}.

(** Computations that call the service and leave events behind. *)
Definition M (A : Type) : Type := σ → A * σ * list Event.

#[local] Instance M_ret : MRet M := λ A a s, (a, s, []).
#[local] Instance M_bind : MBind M := λ A B k m s,
  let '(a, s1, evs1) := m s in
  let '(r, s2, evs2) := k a s1 in
  (r, s2, evs1 ++ evs2).

Definition emit (e : Event) : M unit := λ s, (tt, s, [e]).

Definition receive (input : ReceiveMessageInput) : M (ReceiveMessageOutput * option error) :=
  λ s, let '(out, err, s') := ReceiveMessage input s in
       ((out, err), s', [Receive input out err]).

Definition send (input : SendMessageBatchInput) : M (SendMessageBatchOutput * option error) :=
  λ s, let '(out, err, s') := SendMessageBatch input s in
       ((out, err), s', [Send input out err]).

Definition delete (input : DeleteMessageBatchInput) : M (DeleteMessageBatchOutput * option error) :=
  λ s, let '(out, err, s') := DeleteMessageBatch input s in
       ((out, err), s', [Delete input out err]).

Definition logAwsError (message : string) (err : error) : M unit :=
  emit (LogError (AwsFailure message (cause_of err))).

Section Move.
Variables (sourceQueueURL destinationQueueURL : string) (numberOfMessages : Z).

(** Lines 133-138. *)
Definition params : ReceiveMessageInput :=
  {| Receive_QueueUrl := Some sourceQueueURL;
     VisibilityTimeout := Some 2;
     WaitTimeSeconds := Some 0;
     MaxNumberOfMessages := Some 10 |}.

(** Lines 210-216, the end of the body. *)
Definition update_progress (messagesProcessed : Z) (b : Bar) : M Flow :=
  let b := if numberOfMessages <? messagesProcessed
           then set_Total messagesProcessed b else b in
  let b := ValueInt messagesProcessed b in
  emit (Render (value b) (Total b));;
  mret (Next {| messagesProcessed := messagesProcessed; b := b |}).

(** Lines 159-216, one pass through the body of the [for]. *)
Definition loop_body (st : LoopState) : M Flow :=
  '(resp, err) ← receive params;
  if GoInt.len (Messages resp) =? 0 then
    emit (LogInfo (DoneMoved numberOfMessages));;
    mret (Return Drained)
  else match err with
  | Some e =>
    logAwsError "Failed to receive messages" e;;
    mret (Return ReceiveFailed)
  | None =>
    let batch := {| Send_QueueUrl := Some destinationQueueURL;
                    Send_Entries := convertToEntries (Messages resp) |} in
    '(sendResp, err) ← send batch;
    match err with
    | Some e =>
      logAwsError "Failed to un-queue messages to the destination" e;;
      mret (Return SendFailed)
    | None =>
      if 0 <? GoInt.len (Send_Failed sendResp) then
        emit (LogError (FailedToEnqueue (GoInt.len (Send_Failed sendResp))));;
        mret (Return EnqueueFailed)
      else if GoInt.len (Send_Successful sendResp) =? GoInt.len (Messages resp) then
        let deleteMessageBatch :=
          {| Delete_Entries := convertSuccessfulMessageToBatchRequestEntry (Messages resp);
             Delete_QueueUrl := Some sourceQueueURL |} in
        '(deleteResp, err) ← delete deleteMessageBatch;
        match err with
        | Some e =>
          logAwsError "Failed to delete messages from source queue" e;;
          mret (Return DeleteFailed)
        | None =>
          if 0 <? GoInt.len (Delete_Failed deleteResp) then
            emit (LogError (NotDeleted (Delete_Failed deleteResp)));;
            mret (Return DeleteIncomplete)
          else
            update_progress
              (GoInt.add (messagesProcessed st) (GoInt.len (Messages resp))) (b st)
        end
      else
        update_progress (messagesProcessed st) (b st)
    end
  end.

(** One pass, as the run remembers it. *)
Record Iteration := {
  before : LoopState;
  events : list Event;
  flow : Flow;
}.

(** What a run of the loop leaves: its passes in order, the [return] it
    took ([None] while the loop is still going round), the variables at
    that point and the state of the service. *)
Record Run := {
  iterations : list Iteration;
  outcome : option Exit;
  final : LoopState;
  service : σ;
}.

(** The [for] of line 158, for at most [fuel] passes. *)
Fixpoint loop (fuel : nat) (st : LoopState) (s : σ) : Run :=
  match fuel with
  | O => {| iterations := []; outcome := None; final := st; service := s |}
  | S fuel' =>
    let '(fl, s', evs) := loop_body st s in
    let it := {| before := st; events := evs; flow := fl |} in
    match fl with
    | Return site =>
      {| iterations := [it]; outcome := Some site; final := st; service := s' |}
    | Next st' =>
      let r := loop fuel' st' s' in
      {| iterations := it :: iterations r; outcome := outcome r;
         final := final r; service := service r |}
    end
  end.

(** Lines 146 and 156: the variables when the loop is entered. *)
Definition initial : LoopState :=
  {| messagesProcessed := 0; b := NewInt numberOfMessages |}.

Definition moveMessages (fuel : nat) (s : σ) : Run := loop fuel initial s.

(** Everything [moveMessages] did, in order. *)
Definition trace (r : Run) : list Event :=
  LogInfo StartingToMove :: concat (events <$> iterations r).

End Move.

(** [main] from line 78 on: [numberOfMessages] is the count read from the
    queue's attributes at line 73, the two URLs are the resolved queues.
    The result is [None] when [moveMessages] was not called. *)
Definition main (sourceQueueURL destinationQueueURL : string) (numberOfMessages : Z)
    (fuel : nat) (s : σ) : list Event * option Run :=
  if numberOfMessages =? 0 then ([LogInfo NothingToMove], None)
  else
    let r := moveMessages sourceQueueURL destinationQueueURL numberOfMessages fuel s in
    (trace r, Some r).

End Program.

Arguments Run : clear implicits.

(** ** Reading a run *)

(** The requests that went out in a pass, by kind. *)
Definition is_delete (e : Event) : bool :=
  match e with Delete _ _ _ => true | _ => false end.

Definition is_call (e : Event) : bool :=
  match e with Receive _ _ _ | Send _ _ _ | Delete _ _ _ => true | _ => false end.

(** The calls of a run with their requests and responses, nothing else. *)
Definition calls {σ} (r : Run σ) : list Event :=
  filter (λ e, is_call e = true) (concat (events <$> iterations r)).

(** The identifiers a forward response reports as delivered. *)
Definition delivered (out : SendMessageBatchOutput) : list (option string) :=
  Result_Id <$> Send_Successful out.

(** The identifiers a forward request asks about. *)
Definition requested (input : SendMessageBatchInput) : list (option string) :=
  SendEntry_Id <$> omap id (Send_Entries input).

(** The messages of a batch that the forward response confirms. *)
Definition forwarded (batch : list Message) (out : SendMessageBatchOutput) : list Message :=
  filter (λ m, MessageId m ∈ delivered out) batch.

(** The service's side of a forward call: it reports on requested entries
    only, and on none of them twice. *)
Definition reports_each_entry_once
    (input : SendMessageBatchInput) (out : SendMessageBatchOutput) : Prop :=
  NoDup (delivered out) ∧ delivered out ⊆ requested input.

(** The service's side of a receive call: no more messages than asked for. *)
Definition honours_max (input : ReceiveMessageInput) (out : ReceiveMessageOutput) : Prop :=
  match MaxNumberOfMessages input with
  | Some n => GoInt.len (Messages out) ≤ n
  | None => GoInt.len (Messages out) ≤ 1
  end.

(** The size of the batch of a pass in which forward and delete both went
    through in full, and 0 for any other pass. *)
Definition confirmed_size (evs : list Event) : Z :=
  match evs with
  | [Receive _ resp None; Send _ _ None; Delete _ _ None; Render _ _] =>
    GoInt.len (Messages resp)
  | _ => 0
  end.

Fixpoint sum_list (l : list Z) : Z :=
  match l with
  | [] => 0
  | x :: l' => x + sum_list l'
  end.

(** The messages moved by a sequence of passes. *)
Definition moved (its : list Iteration) : Z :=
  sum_list ((λ it, confirmed_size (events it)) <$> its).

(** The count that a "Done. Moved ..." line reports, if the pass wrote one. *)
Definition reported (evs : list Event) : option Z :=
  match last evs with
  | Some (LogInfo (DoneMoved count)) => Some count
  | _ => None
  end.

(** The state of the variables that a run from [initial] can be in. *)
Definition bar_follows (numberOfMessages : Z) (st : LoopState) : Prop :=
  Total (b st) = numberOfMessages
  ∨ (numberOfMessages < messagesProcessed st ∧ Total (b st) = messagesProcessed st).

(** The variables at the start of each pass of a run, and where the run
    left them. *)
Definition visited {σ} (r : Run σ) : list LoopState :=
  (before <$> iterations r) ++ [final r].

(** From one state of the variables to a later one: neither the count nor the
    bar's total goes down, and a total that changed was below the new count
    and is now equal to it. *)
Definition advances (st st' : LoopState) : Prop :=
  messagesProcessed st ≤ messagesProcessed st'
  ∧ Total (b st) ≤ Total (b st')
  ∧ (Total (b st') ≠ Total (b st) →
     Total (b st) < messagesProcessed st' ∧ Total (b st') = messagesProcessed st').

Fixpoint climbs (l : list LoopState) : Prop :=
  match l with
  | st :: ((st' :: _) as rest) => advances st st' ∧ climbs rest
  | _ => True
  end.

(** Two passes that end the same way: at the same [return], or at the closing
    brace with the same count. *)
Definition same_course (fl fl' : Flow) : Prop :=
  match fl, fl' with
  | Return site, Return site' => site = site'
  | Next st, Next st' => messagesProcessed st = messagesProcessed st'
  | _, _ => False
  end.

(** The service calls made on behalf of [main], none when it did not start
    the transfer. *)
Definition transfers {σ} (result : list Event * option (Run σ)) : list Event :=
  match result.2 with
  | Some r => calls r
  | None => []
  end.

(** ** Two services to run the program against *)

(** A service that answers from a script: each call takes the next answer of
    its kind, and an empty, error-free answer once the script is used up. *)
Module Scripted.

Record state := {
  receives : list (ReceiveMessageOutput * option error);
  sends : list (SendMessageBatchOutput * option error);
  deletes : list (DeleteMessageBatchOutput * option error);
}.

#[global] Instance api : SQSAPI state := {
  ReceiveMessage _ s :=
    match receives s with
    | [] => ({| Messages := [] |}, None, s)
    | (out, err) :: rest =>
      (out, err, {| receives := rest; sends := sends s; deletes := deletes s |})
    end;
  SendMessageBatch _ s :=
    match sends s with
    | [] => ({| Send_Successful := []; Send_Failed := [] |}, None, s)
    | (out, err) :: rest =>
      (out, err, {| receives := receives s; sends := rest; deletes := deletes s |})
    end;
  DeleteMessageBatch _ s :=
    match deletes s with
    | [] => ({| Delete_Successful := []; Delete_Failed := [] |}, None, s)
    | (out, err) :: rest =>
      (out, err, {| receives := receives s; sends := sends s; deletes := rest |})
    end;
}.

End Scripted.

(** Two queues in memory.  Everything succeeds, except a forward request with
    a repeated entry identifier, which the service refuses as a whole. *)
Module Queues.

Record state := {
  source : list Message;
  destination : list SendMessageBatchRequestEntry;
}.

Definition asked (input : ReceiveMessageInput) : nat :=
  Z.to_nat (default 1 (MaxNumberOfMessages input)).

#[global] Instance api : SQSAPI state := {
  ReceiveMessage input s :=
    ({| Messages := take (asked input) (source s) |}, None, s);
  SendMessageBatch input s :=
    let entries := omap id (Send_Entries input) in
    if bool_decide (NoDup (SendEntry_Id <$> entries)) then
      ({| Send_Successful := (λ e, {| Result_Id := SendEntry_Id e |}) <$> entries;
          Send_Failed := [] |},
       None,
       {| source := source s; destination := destination s ++ entries |})
    else
      ({| Send_Successful := []; Send_Failed := [] |},
       Some (AwsErr "AWS.SimpleQueueService.BatchEntryIdsNotDistinct"
                    "Two or more batch entries in the request have the same Id."),
       s);
  DeleteMessageBatch input s :=
    let entries := omap id (Delete_Entries input) in
    let handles := DeleteEntry_ReceiptHandle <$> entries in
    ({| Delete_Successful := (λ e, {| Result_Id := DeleteEntry_Id e |}) <$> entries;
        Delete_Failed := [] |},
     None,
     {| source := filter (λ m, ReceiptHandle m ∉ handles) (source s);
        destination := destination s |});
}.

(** A message whose identifier, body and receipt handle are made from [tag]. *)
Definition message (tag : string) : Message :=
  {| Body := Some ("body-" +:+ tag);
     MessageId := Some ("id-" +:+ tag);
     ReceiptHandle := Some ("rh-" +:+ tag) |}.

End Queues.

(** ** One pass of the loop, case by case

    [Pass src dst n st s fl s' evs]: from the variables [st] and the service
    state [s], the body ends as [fl], leaves the service in [s'] and the
    events [evs] behind.  One constructor for each way through the body. *)

Section Passes.
Context {σ : Type} {svc : SQSAPI σ}.
Variables (sourceQueueURL destinationQueueURL : string) (numberOfMessages : Z).

Abbreviation params := (params sourceQueueURL).

Definition batch_of (resp : ReceiveMessageOutput) : SendMessageBatchInput :=
  {| Send_QueueUrl := Some destinationQueueURL;
     Send_Entries := convertToEntries (Messages resp) |}.

Definition deleteMessageBatch_of (resp : ReceiveMessageOutput) : DeleteMessageBatchInput :=
  {| Delete_Entries := convertSuccessfulMessageToBatchRequestEntry (Messages resp);
     Delete_QueueUrl := Some sourceQueueURL |}.

(** The bar after lines 210-215. *)
Definition bar_after (messagesProcessed : Z) (b : Bar) : Bar :=
  ValueInt messagesProcessed
    (if numberOfMessages <? messagesProcessed then set_Total messagesProcessed b else b).

Definition state_after (messagesProcessed : Z) (b : Bar) : LoopState :=
  {| messagesProcessed := messagesProcessed; b := bar_after messagesProcessed b |}.

Definition render_of (st : LoopState) : Event :=
  Render (value (b st)) (Total (b st)).

Inductive Pass (st : LoopState) (s : σ) : Flow → σ → list Event → Prop :=
  | pass_drained resp err s1 :
    ReceiveMessage params s = (resp, err, s1) →
    Messages resp = [] →
    Pass st s (Return Drained) s1
      [Receive params resp err; LogInfo (DoneMoved numberOfMessages)]
  | pass_receive_failed resp e s1 :
    ReceiveMessage params s = (resp, Some e, s1) →
    Messages resp ≠ [] →
    Pass st s (Return ReceiveFailed) s1
      [Receive params resp (Some e);
       LogError (AwsFailure "Failed to receive messages" (cause_of e))]
  | pass_send_failed resp s1 sendResp e s2 :
    ReceiveMessage params s = (resp, None, s1) →
    Messages resp ≠ [] →
    SendMessageBatch (batch_of resp) s1 = (sendResp, Some e, s2) →
    Pass st s (Return SendFailed) s2
      [Receive params resp None; Send (batch_of resp) sendResp (Some e);
       LogError (AwsFailure "Failed to un-queue messages to the destination" (cause_of e))]
  | pass_enqueue_failed resp s1 sendResp s2 :
    ReceiveMessage params s = (resp, None, s1) →
    Messages resp ≠ [] →
    SendMessageBatch (batch_of resp) s1 = (sendResp, None, s2) →
    Send_Failed sendResp ≠ [] →
    Pass st s (Return EnqueueFailed) s2
      [Receive params resp None; Send (batch_of resp) sendResp None;
       LogError (FailedToEnqueue (GoInt.len (Send_Failed sendResp)))]
  | pass_skipped resp s1 sendResp s2 :
    ReceiveMessage params s = (resp, None, s1) →
    Messages resp ≠ [] →
    SendMessageBatch (batch_of resp) s1 = (sendResp, None, s2) →
    Send_Failed sendResp = [] →
    length (Send_Successful sendResp) ≠ length (Messages resp) →
    let st' := state_after (messagesProcessed st) (b st) in
    Pass st s (Next st') s2
      [Receive params resp None; Send (batch_of resp) sendResp None; render_of st']
  | pass_delete_failed resp s1 sendResp s2 deleteResp e s3 :
    ReceiveMessage params s = (resp, None, s1) →
    Messages resp ≠ [] →
    SendMessageBatch (batch_of resp) s1 = (sendResp, None, s2) →
    Send_Failed sendResp = [] →
    length (Send_Successful sendResp) = length (Messages resp) →
    DeleteMessageBatch (deleteMessageBatch_of resp) s2 = (deleteResp, Some e, s3) →
    Pass st s (Return DeleteFailed) s3
      [Receive params resp None; Send (batch_of resp) sendResp None;
       Delete (deleteMessageBatch_of resp) deleteResp (Some e);
       LogError (AwsFailure "Failed to delete messages from source queue" (cause_of e))]
  | pass_delete_incomplete resp s1 sendResp s2 deleteResp s3 :
    ReceiveMessage params s = (resp, None, s1) →
    Messages resp ≠ [] →
    SendMessageBatch (batch_of resp) s1 = (sendResp, None, s2) →
    Send_Failed sendResp = [] →
    length (Send_Successful sendResp) = length (Messages resp) →
    DeleteMessageBatch (deleteMessageBatch_of resp) s2 = (deleteResp, None, s3) →
    Delete_Failed deleteResp ≠ [] →
    Pass st s (Return DeleteIncomplete) s3
      [Receive params resp None; Send (batch_of resp) sendResp None;
       Delete (deleteMessageBatch_of resp) deleteResp None;
       LogError (NotDeleted (Delete_Failed deleteResp))]
  | pass_moved resp s1 sendResp s2 deleteResp s3 :
    ReceiveMessage params s = (resp, None, s1) →
    Messages resp ≠ [] →
    SendMessageBatch (batch_of resp) s1 = (sendResp, None, s2) →
    Send_Failed sendResp = [] →
    length (Send_Successful sendResp) = length (Messages resp) →
    DeleteMessageBatch (deleteMessageBatch_of resp) s2 = (deleteResp, None, s3) →
    Delete_Failed deleteResp = [] →
    let st' := state_after (GoInt.add (messagesProcessed st) (GoInt.len (Messages resp)))
                           (b st) in
    Pass st s (Next st') s3
      [Receive params resp None; Send (batch_of resp) sendResp None;
       Delete (deleteMessageBatch_of resp) deleteResp None; render_of st'].

End Passes.

(** ** The command: [main] and [resolveQueueURL]

    What [main] does before line 78.  The flags, the session constructor of
    the SDK and [strconv.Atoi] are not code of this program: the flags are
    arguments, the other two are parameters. *)

Module Cli.

(** Lines 78-85, modelled above. *)
Abbreviation main_from_line_78 := main.

Record GetQueueUrlInput := {
  QueueName : option string;
}.

Record GetQueueUrlOutput := {
  QueueUrl : option string;
}.

Record GetQueueAttributesInput := {
  Attributes_QueueUrl : option string;
  AttributeNames : list (option string);
}.

(** [Attributes map[string]*string]; the map of an output that was never
    filled is nil, and reads like the empty map. *)
Record GetQueueAttributesOutput := {
  Attributes : gmap string (option string);
}.

(** The two other methods of [svc] that [main] uses. *)
Class SQSQueueAPI (σ : Type) := {
  GetQueueUrl : GetQueueUrlInput → σ → GetQueueUrlOutput * option error * σ;
  GetQueueAttributes :
    GetQueueAttributesInput → σ → GetQueueAttributesOutput * option error * σ;
}.

(** The four flags of lines 20-23. *)
Record Flags := {
  sourceQueue : string;
  destinationQueue : string;
  profile : string;
  region : string;
}.

Inductive MainInfo :=
| SourceQueueURL (url : string)            (* line 57 *)
| DestinationQueueURL (url : string)       (* line 66 *)
| ApproximateNumber (text : string).       (* line 75 *)

Inductive MainEvent :=
| GetUrl (input : GetQueueUrlInput) (output : GetQueueUrlOutput) (err : option error)
| GetAttributes (input : GetQueueAttributesInput) (output : GetQueueAttributesOutput)
    (err : option error)
| Info (line : MainInfo)
| SessionError (region : string)           (* line 44 *)
| Core (e : Event).                        (* [logAwsError], and line 78 on *)

(** A Go function comes back with its results, or panics. *)
Inductive Completion (A : Type) :=
| Normal (a : A)
| Panic.
Arguments Normal {A} a.
Arguments Panic {A}.

(** How [main] ends: at one of its [return]s or its closing brace, or in the
    panic of a nil pointer read. *)
Inductive Ending :=
| Returns
| Panics.

(** [m[key]] on a [map[string]*string]: nil for a key that is not there. *)
Definition index (m : gmap string (option string)) (key : string) : option string :=
  default None (m !! key).

Definition is_message_call (e : MainEvent) : bool :=
  match e with Core c => is_call c | _ => false end.

Definition is_queue_call (e : MainEvent) : bool :=
  match e with GetUrl _ _ _ | GetAttributes _ _ _ => true | _ => false end.

Section Main.
Context {σ : Type} {svc : SQSAPI σ} {queues : SQSQueueAPI σ}.

(** What a run of [main] leaves: its log and calls in order, how it ended,
    the run of [moveMessages] if line 83 was reached, and the state of the
    service. *)
Record MainRun := {
  log : list MainEvent;
  ending : Ending;
  transfer : option (Run σ);
  after : σ;
}.

(** Lines 87-98. *)
Definition resolveQueueURL (queueName : string) (s : σ)
  : Completion (string * option error) * σ * list MainEvent :=
  let params := {| QueueName := Some queueName |} in
  let '(resp, err, s') := GetQueueUrl params s in
  let evs := [GetUrl params resp err] in
  match err with
  | Some e => (Normal ("", Some e), s', evs)
  | None =>
    match QueueUrl resp with
    | Some url => (Normal (url, None), s', evs)
    | None => (Panic, s', evs)
    end
  end.

(** [logAwsError], as [main] calls it. *)
Definition logged (message : string) (err : error) : MainEvent :=
  Core (LogError (AwsFailure message (cause_of err))).

Variable NewSessionWithOptions : string → string → option error.
Variable Atoi : string → Z * option error.

(** Lines 26-85. *)
Definition main (flags : Flags) (fuel : nat) (s : σ) : MainRun :=
  match NewSessionWithOptions (profile flags) (region flags) with
  | Some _ =>
    {| log := [SessionError (region flags)]; ending := Returns;
       transfer := None; after := s |}
  | None =>
    let '(resolved, s1, evs1) := resolveQueueURL (sourceQueue flags) s in
    match resolved with
    | Panic => {| log := evs1; ending := Panics; transfer := None; after := s1 |}
    | Normal (_, Some err) =>
      {| log := evs1 ++ [logged "Failed to resolve source queue" err];
         ending := Returns; transfer := None; after := s1 |}
    | Normal (sourceQueueURL, None) =>
      let evs1 := evs1 ++ [Info (SourceQueueURL sourceQueueURL)] in
      let '(resolved, s2, evs2) := resolveQueueURL (destinationQueue flags) s1 in
      match resolved with
      | Panic =>
        {| log := evs1 ++ evs2; ending := Panics; transfer := None; after := s2 |}
      | Normal (_, Some err) =>
        {| log := evs1 ++ evs2 ++ [logged "Failed to resolve destination queue" err];
           ending := Returns; transfer := None; after := s2 |}
      | Normal (destinationQueueURL, None) =>
        let evs2 := evs2 ++ [Info (DestinationQueueURL destinationQueueURL)] in
        let input := {| Attributes_QueueUrl := Some sourceQueueURL;
                        AttributeNames := [Some "All"] |} in
        let '(queueAttributes, err, s3) := GetQueueAttributes input s2 in
        let evs3 := [GetAttributes input queueAttributes err] in
        match index (Attributes queueAttributes) "ApproximateNumberOfMessages" with
        | None =>
          {| log := evs1 ++ evs2 ++ evs3; ending := Panics;
             transfer := None; after := s3 |}
        | Some text =>
          let '(numberOfMessages, _) := Atoi text in
          let evs3 := evs3 ++ [Info (ApproximateNumber text)] in
          let '(evs4, r) :=
            main_from_line_78 sourceQueueURL destinationQueueURL numberOfMessages fuel s3 in
          {| log := evs1 ++ evs2 ++ evs3 ++ (Core <$> evs4); ending := Returns;
             transfer := r;
             after := match r with Some r => service r | None => s3 end |}
        end
      end
    end
  end.

(** The request of line 88 and the request of lines 68-71. *)
Definition name_input (queueName : string) : GetQueueUrlInput :=
  {| QueueName := Some queueName |}.

Definition attributes_input (sourceQueueURL : string) : GetQueueAttributesInput :=
  {| Attributes_QueueUrl := Some sourceQueueURL; AttributeNames := [Some "All"] |}.

(** The calls of [main] that touch messages. *)
Definition message_calls (r : MainRun) : list MainEvent :=
  filter (λ e, is_message_call e = true) (log r).

(** The calls of [main] that ask about queues. *)
Definition queue_calls (r : MainRun) : list MainEvent :=
  filter (λ e, is_queue_call e = true) (log r).

End Main.

Arguments MainRun : clear implicits.

End Cli.

(** An account with named queues: the two queues of [Queues], the names the
    account knows with their URLs, and the attributes it reports for the
    source. *)
Module Account.

Record state := {
  names : gmap string string;
  attributes : gmap string (option string);
  queues : Queues.state;
}.

Definition with_queues (s : state) (q : Queues.state) : state :=
  {| names := names s; attributes := attributes s; queues := q |}.

Definition unknown_queue : error :=
  AwsErr "AWS.SimpleQueueService.NonExistentQueue" "The specified queue does not exist.".

#[global] Instance messages : SQSAPI state := {
  ReceiveMessage input s :=
    let '(out, err, q) := ReceiveMessage input (queues s) in (out, err, with_queues s q);
  SendMessageBatch input s :=
    let '(out, err, q) := SendMessageBatch input (queues s) in (out, err, with_queues s q);
  DeleteMessageBatch input s :=
    let '(out, err, q) := DeleteMessageBatch input (queues s) in (out, err, with_queues s q);
}.

#[global] Instance admin : Cli.SQSQueueAPI state := {
  Cli.GetQueueUrl input s :=
    match Cli.QueueName input ≫= (λ name, names s !! name) with
    | Some url => ({| Cli.QueueUrl := Some url |}, None, s)
    | None => ({| Cli.QueueUrl := None |}, Some unknown_queue, s)
    end;
  Cli.GetQueueAttributes input s :=
    ({| Cli.Attributes := attributes s |}, None, s);
}.

(** A reading of decimal numerals, for [strconv.Atoi]: the number, or 0 and
    an error for anything but a run of digits. *)
Fixpoint digits (text : string) (acc : Z) : option Z :=
  match text with
  | EmptyString => Some acc
  | String c rest =>
    let d := Z.of_N (Ascii.N_of_ascii c) - 48 in
    if (0 <=? d) && (d <=? 9) then digits rest (10 * acc + d) else None
  end.

Definition Atoi (text : string) : Z * option error :=
  match text with
  | EmptyString => (0, Some (PlainErr "strconv.Atoi: parsing: invalid syntax"))
  | _ =>
    match digits text 0 with
    | Some n => (n, None)
    | None => (0, Some (PlainErr "strconv.Atoi: parsing: invalid syntax"))
    end
  end.

(** A session constructor that accepts every profile and region. *)
Definition NewSessionWithOptions (profile region : string) : option error := None.

End Account.

(** ** Sample inputs *)

Module Samples.

Definition m1 : Message := Queues.message "1".
Definition m2 : Message := Queues.message "2".

Definition ok (m : Message) : BatchResultEntry := {| Result_Id := MessageId m |}.

Definition ko (m : Message) : BatchResultErrorEntry :=
  {| Error_Id := MessageId m; Error_Code := Some "InternalError" |}.

Definition unreachable : error :=
  AwsErr "RequestError" "send request failed".

Definition two : ReceiveMessageOutput * option error :=
  ({| Messages := [m1; m2] |}, None).

(** The receive call fails: the SDK hands back an empty output and the error. *)
Definition receive_down : Scripted.state :=
  {| Scripted.receives := [({| Messages := [] |}, Some unreachable)];
     Scripted.sends := [];
     Scripted.deletes := [] |}.

(** The forward call fails as a whole. *)
Definition forward_down : Scripted.state :=
  {| Scripted.receives := [two];
     Scripted.sends := [({| Send_Successful := []; Send_Failed := [] |}, Some unreachable)];
     Scripted.deletes := [] |}.

(** The forward response reports one message delivered and one failed. *)
Definition forward_partial : Scripted.state :=
  {| Scripted.receives := [two];
     Scripted.sends := [({| Send_Successful := [ok m1]; Send_Failed := [ko m2] |}, None)];
     Scripted.deletes := [] |}.

(** The forward response reports no failure, and one delivery for two messages. *)
Definition forward_short : Scripted.state :=
  {| Scripted.receives := [two];
     Scripted.sends := [({| Send_Successful := [ok m1]; Send_Failed := [] |}, None)];
     Scripted.deletes := [] |}.

(** The delete call fails as a whole. *)
Definition delete_down : Scripted.state :=
  {| Scripted.receives := [two];
     Scripted.sends := [({| Send_Successful := [ok m1; ok m2]; Send_Failed := [] |}, None)];
     Scripted.deletes :=
       [({| Delete_Successful := []; Delete_Failed := [] |}, Some unreachable)] |}.

(** The delete response reports a message that was not deleted. *)
Definition delete_partial : Scripted.state :=
  {| Scripted.receives := [two];
     Scripted.sends := [({| Send_Successful := [ok m1; ok m2]; Send_Failed := [] |}, None)];
     Scripted.deletes :=
       [({| Delete_Successful := [ok m1]; Delete_Failed := [ko m2] |}, None)] |}.

(** A source queue of one message. *)
Definition one : Queues.state :=
  {| Queues.source := [m1]; Queues.destination := [] |}.

(** A source queue of twelve messages. *)
Definition twelve : Queues.state :=
  {| Queues.source :=
       Queues.message <$> ["a"; "b"; "c"; "d"; "e"; "f"; "g"; "h"; "i"; "j"; "k"; "l"];
     Queues.destination := [] |}.

Definition somewhere : LoopState :=
    {| messagesProcessed := 30; b := {| Total := 40; value := 30 |} |}.

(** The first pass of [moveMessages "src" "dst" 1] on the queue [one]. *)
Definition received_one : ReceiveMessageOutput := {| Messages := [m1] |}.

Definition forwarded_one : SendMessageBatchOutput :=
  {| Send_Successful := [ok m1]; Send_Failed := [] |}.

Definition deleted_one : DeleteMessageBatchOutput :=
  {| Delete_Successful := [ok m1]; Delete_Failed := [] |}.

Definition first_pass : Iteration :=
  {| before := initial 1;
     events := [Receive (params "src") received_one None;
                Send (batch_of "dst" received_one) forwarded_one None;
                Delete (deleteMessageBatch_of "src" received_one) deleted_one None;
                Render 1 1];
     flow := Next {| messagesProcessed := 1; b := {| Total := 1; value := 1 |} |} |}.

(** The receive call hands back two messages and an error. *)
Definition receive_torn : Scripted.state :=
  {| Scripted.receives := [({| Messages := [m1; m2] |}, Some unreachable)];
     Scripted.sends := [];
     Scripted.deletes := [] |}.

Definition flags : Cli.Flags :=
  {| Cli.sourceQueue := "dead-letters"; Cli.destinationQueue := "orders";
     Cli.profile := "default"; Cli.region := "us-east-1" |}.

(** An account that knows both queues and reports twelve messages. *)
Definition account : Account.state :=
  {| Account.names := {[ "dead-letters" := "https://sqs/dead-letters";
                         "orders" := "https://sqs/orders" ]};
     Account.attributes := {[ "ApproximateNumberOfMessages" := Some "12" ]};
     Account.queues := twelve |}.

(** The same account without the queue "orders". *)
Definition account_without_destination : Account.state :=
  {| Account.names := {[ "dead-letters" := "https://sqs/dead-letters" ]};
     Account.attributes := Account.attributes account;
     Account.queues := twelve |}.

(** An account that knows no queue. *)
Definition account_without_queues : Account.state :=
  {| Account.names := ∅;
     Account.attributes := Account.attributes account;
     Account.queues := twelve |}.

(** The same account, reporting no attribute. *)
Definition account_without_attributes : Account.state :=
  {| Account.names := Account.names account;
     Account.attributes := ∅;
     Account.queues := twelve |}.

End Samples.

(** * Properties *)

(** *** The range loop fills the slice slot by slot *)

Section RangeFill.
Context {A T : Type} (g : A → T).

Lemma for_range_fill (l : list A) (done : list (option T)) :
  for_range (λ i x result, <[i := Some (g x)]> result)
            (length done) l (done ++ make (length l))
  = done ++ map (λ x, Some (g x)) l.
Proof.
  revert done. induction l as [|x l IH]; intros done; simpl.
  - reflexivity.
  - replace (<[length done := Some (g x)]> (done ++ None :: make (length l)))
      with ((done ++ [Some (g x)]) ++ make (length l)).
    + replace (S (length done)) with (length (done ++ [Some (g x)])).
      * rewrite IH. by rewrite <- app_assoc.
      * rewrite length_app. simpl. lia.
    + rewrite <- app_assoc. simpl.
      rewrite insert_app_r_alt by lia.
      by replace (length done - length done)%nat with 0%nat by lia.
Qed.

Lemma for_range_make (l : list A) :
  for_range (λ i x result, <[i := Some (g x)]> result) 0%nat l (make (length l))
  = map (λ x, Some (g x)) l.
Proof. exact (for_range_fill l []). Qed.
End RangeFill.

Lemma convertToEntries_map messages :
  convertToEntries messages = map (λ m, Some (send_entry_of m)) messages.
Proof. apply for_range_make. Qed.

Lemma convertSuccessfulMessageToBatchRequestEntry_map messages :
  convertSuccessfulMessageToBatchRequestEntry messages
  = map (λ m, Some (delete_entry_of m)) messages.
Proof. apply for_range_make. Qed.

(** ** The body of the loop and its cases *)

Section BodyFacts.
Context {σ : Type} {svc : SQSAPI σ}.
Variables (sourceQueueURL destinationQueueURL : string) (numberOfMessages : Z).

Abbreviation body := (loop_body sourceQueueURL destinationQueueURL numberOfMessages).
Abbreviation Pass' := (Pass sourceQueueURL destinationQueueURL numberOfMessages).
Abbreviation run := (loop sourceQueueURL destinationQueueURL numberOfMessages).

Lemma len_zero {A} (l : list A) : (GoInt.len l =? 0) = true ↔ l = [].
Proof.
  unfold GoInt.len. rewrite Z.eqb_eq. destruct l; simpl; split; intros; try done; lia.
Qed.

Lemma len_positive {A} (l : list A) : (0 <? GoInt.len l) = true ↔ l ≠ [].
Proof.
  unfold GoInt.len. rewrite Z.ltb_lt. destruct l; simpl; split; intros; try done; lia.
Qed.

Lemma len_eq {A B} (l : list A) (k : list B) :
  (GoInt.len l =? GoInt.len k) = true ↔ length l = length k.
Proof. unfold GoInt.len. rewrite Z.eqb_eq. lia. Qed.

Lemma len_nonneg {A} (l : list A) : 0 ≤ GoInt.len l.
Proof. unfold GoInt.len. lia. Qed.

(** Whatever the service answers, the body takes one of the eight ways. *)
Lemma loop_body_Pass st s fl s' evs :
  body st s = (fl, s', evs) → Pass' st s fl s' evs.
Proof.
  unfold loop_body, update_progress, logAwsError, emit, receive, send, delete,
    mbind, mret, M_bind, M_ret.
  destruct (ReceiveMessage (params sourceQueueURL) s) as [[resp err] s1] eqn:Hr.
  destruct (GoInt.len (Messages resp) =? 0) eqn:Hempty.
  { intros [= <- <- <-]. apply len_zero in Hempty. by eapply pass_drained. }
  assert (Messages resp ≠ []) as Hne.
  { intros Hnil. apply len_zero in Hnil. congruence. }
  destruct err as [e|].
  { intros [= <- <- <-]. by eapply pass_receive_failed. }
  fold (batch_of destinationQueueURL resp).
  destruct (SendMessageBatch (batch_of destinationQueueURL resp) s1)
    as [[sendResp err] s2] eqn:Hs.
  destruct err as [e|].
  { intros [= <- <- <-]. by eapply pass_send_failed. }
  destruct (0 <? GoInt.len (Send_Failed sendResp)) eqn:Hfailed.
  { intros [= <- <- <-]. apply len_positive in Hfailed. by eapply pass_enqueue_failed. }
  assert (Send_Failed sendResp = []) as Hnone.
  { destruct (Send_Failed sendResp) eqn:E; [done|].
    assert ((0 <? GoInt.len (Send_Failed sendResp)) = true) as Hp
      by (apply len_positive; congruence).
    rewrite E in Hp. congruence. }
  destruct (GoInt.len (Send_Successful sendResp) =? GoInt.len (Messages resp)) eqn:Hall.
  2:{ intros [= <- <- <-].
      eapply (pass_skipped _ _ _ _ _ resp s1 sendResp s2); try done.
      intros Hlen. apply len_eq in Hlen. congruence. }
  apply len_eq in Hall.
  fold (deleteMessageBatch_of sourceQueueURL resp).
  destruct (DeleteMessageBatch (deleteMessageBatch_of sourceQueueURL resp) s2)
    as [[deleteResp err] s3] eqn:Hd.
  destruct err as [e|].
  { intros [= <- <- <-]. by eapply pass_delete_failed. }
  destruct (0 <? GoInt.len (Delete_Failed deleteResp)) eqn:Hleft.
  { intros [= <- <- <-]. apply len_positive in Hleft. by eapply pass_delete_incomplete. }
  assert (Delete_Failed deleteResp = []) as Hclean.
  { destruct (Delete_Failed deleteResp) eqn:E; [done|].
    assert ((0 <? GoInt.len (Delete_Failed deleteResp)) = true) as Hp
      by (apply len_positive; congruence).
    rewrite E in Hp. congruence. }
  intros [= <- <- <-].
  by eapply (pass_moved _ _ _ _ _ resp s1 sendResp s2 deleteResp s3).
Qed.

Lemma len_not_zero {A} (l : list A) : l ≠ [] → (GoInt.len l =? 0) = false.
Proof. intros Hne. destruct (GoInt.len l =? 0) eqn:E; [|done]. by apply len_zero in E. Qed.

Lemma len_not_positive {A} (l : list A) : l = [] → (0 <? GoInt.len l) = false.
Proof. by intros ->. Qed.

Lemma len_differ {A B} (l : list A) (k : list B) :
  length l ≠ length k → (GoInt.len l =? GoInt.len k) = false.
Proof.
  intros Hne. destruct (GoInt.len l =? GoInt.len k) eqn:E; [|done]. by apply len_eq in E.
Qed.

Ltac run_body :=
  unfold batch_of, deleteMessageBatch_of in *;
  unfold loop_body, update_progress, logAwsError, emit, receive, send, delete,
    mbind, mret, M_bind, M_ret;
  repeat (progress (cbv beta iota zeta;
    try match goal with
    | H : ReceiveMessage _ _ = _ |- _ => rewrite H; clear H
    | H : SendMessageBatch _ _ = _ |- _ => rewrite H; clear H
    | H : DeleteMessageBatch _ _ = _ |- _ => rewrite H; clear H
    | H : Messages _ = [] |- _ => rewrite H
    | H : Messages _ ≠ [] |- _ => rewrite (len_not_zero _ H)
    | H : Send_Failed _ ≠ [] |- _ => rewrite (proj2 (len_positive _) H)
    | H : Send_Failed _ = [] |- _ => rewrite (len_not_positive _ H)
    | H : Delete_Failed _ ≠ [] |- _ => rewrite (proj2 (len_positive _) H)
    | H : Delete_Failed _ = [] |- _ => rewrite (len_not_positive _ H)
    | H : length (Send_Successful _) = length _ |- _ => rewrite (proj2 (len_eq _ _) H)
    | H : length (Send_Successful _) ≠ length _ |- _ => rewrite (len_differ _ _ H)
    end)).

(** Each of the eight ways is the one the body takes under its conditions. *)
Lemma Pass_loop_body st s fl s' evs :
  Pass' st s fl s' evs → body st s = (fl, s', evs).
Proof.
  destruct 1; run_body; reflexivity.
Qed.

Lemma Pass_functional st s fl1 s1 evs1 fl2 s2 evs2 :
  Pass' st s fl1 s1 evs1 → Pass' st s fl2 s2 evs2 →
  fl1 = fl2 ∧ s1 = s2 ∧ evs1 = evs2.
Proof.
  intros H1 H2. apply Pass_loop_body in H1, H2.
  rewrite H1 in H2. by injection H2.
Qed.

(** *** Unfolding the loop *)

Lemma loop_return fuel st s site s' evs :
  body st s = (Return site, s', evs) →
  run (S fuel) st s =
    {| iterations := [{| before := st; events := evs; flow := Return site |}];
       outcome := Some site; final := st; service := s' |}.
Proof. intros Hb. simpl. by rewrite Hb. Qed.

Lemma loop_next fuel st s st' s' evs :
  body st s = (Next st', s', evs) →
  run (S fuel) st s =
    let r := run fuel st' s' in
    {| iterations := {| before := st; events := evs; flow := Next st' |} :: iterations r;
       outcome := outcome r; final := final r; service := service r |}.
Proof. intros Hb. simpl. by rewrite Hb. Qed.

(** Every pass of a run is one of the eight. *)
Lemma loop_iterations_Pass fuel st s it :
  it ∈ iterations (run fuel st s) →
  ∃ s0 s1, Pass' (before it) s0 (flow it) s1 (events it).
Proof.
  revert st s. induction fuel as [|fuel IH]; intros st s; simpl.
  - by intros ?%elem_of_nil.
  - destruct (body st s) as [[fl s'] evs] eqn:Hb.
    apply loop_body_Pass in Hb.
    destruct fl as [st'|site]; simpl.
    + intros [->|Hin]%elem_of_cons; [by exists s, s'|by eapply IH].
    + intros ->%list_elem_of_singleton. by exists s, s'.
Qed.

(** More fuel never changes a run that has returned. *)
Lemma loop_returned_stable fuel extra st s site :
  outcome (run fuel st s) = Some site →
  run (fuel + extra) st s = run fuel st s.
Proof.
  revert st s. induction fuel as [|fuel IH]; intros st s; simpl; [done|].
  destruct (body st s) as [[[st'|site'] s'] evs]; simpl; [|done].
  intros Hout. by rewrite (IH _ _ Hout).
Qed.

(** A run from the [k]-th pass on is the run of the loop from the variables
    and the service state of that pass: what holds of the first pass of any
    run holds of every pass. *)
Lemma loop_resume fuel k st s it :
  iterations (run fuel st s) !! k = Some it →
  ∃ s_k,
    let rest := run (fuel - k) (before it) s_k in
    iterations (run fuel st s) = take k (iterations (run fuel st s)) ++ iterations rest
    ∧ outcome (run fuel st s) = outcome rest
    ∧ final (run fuel st s) = final rest
    ∧ service (run fuel st s) = service rest.
Proof.
  revert k st s. induction fuel as [|fuel IH]; intros k st s; [done|].
  destruct k as [|k].
  - intros Hit. exists s.
    assert (before it = st) as ->.
    { simpl in Hit. destruct (body st s) as [[[st'|site] s'] evs];
        simpl in Hit; by injection Hit as <-. }
    by rewrite Nat.sub_0_r.
  - destruct (body st s) as [[[st'|site] s'] evs] eqn:Hb.
    + rewrite (loop_next _ _ _ _ _ _ Hb). cbv zeta. cbn [iterations outcome final service].
      intros Hit. destruct (IH k st' s' Hit) as (s_k & Hits & Hout & Hfin & Hsvc).
      exists s_k. cbv zeta. replace (S fuel - S k)%nat with (fuel - k)%nat by lia.
      repeat split; try done.
      rewrite firstn_cons. simpl. by f_equal.
    + rewrite (loop_return _ _ _ _ _ _ Hb). done.
Qed.

End BodyFacts.

(** ** The translators *)

(** C6: for every list of messages, the empty one included, both translators
    return a slice as long as the input whose [i]-th slot is filled with the
    entry made from the [i]-th message: its [Id] is the message's [MessageId],
    and its [MessageBody] (forward entry) or [ReceiptHandle] (delete entry) is
    the message's own. *)
Theorem translators_keep_length_order_and_fields (messages : list Message) :
  length (convertToEntries messages) = length messages
  ∧ length (convertSuccessfulMessageToBatchRequestEntry messages) = length messages
  ∧ ∀ i : nat,
      convertToEntries messages !! i
      = (λ m, Some {| SendEntry_MessageBody := Body m; SendEntry_Id := MessageId m |})
          <$> messages !! i
      ∧ convertSuccessfulMessageToBatchRequestEntry messages !! i
        = (λ m, Some {| DeleteEntry_ReceiptHandle := ReceiptHandle m;
                        DeleteEntry_Id := MessageId m |})
            <$> messages !! i.
Proof.
  rewrite convertToEntries_map, convertSuccessfulMessageToBatchRequestEntry_map.
  rewrite !length_map. repeat split.
  - apply (list_lookup_fmap (λ m, Some (send_entry_of m))).
  - apply (list_lookup_fmap (λ m, Some (delete_entry_of m))).
Qed.

Example convertToEntries_empty : convertToEntries [] = [].
Proof. reflexivity. Qed.

Example convertToEntries_two :
  convertToEntries [Samples.m1; Samples.m2]
  = [Some {| SendEntry_MessageBody := Some "body-1"; SendEntry_Id := Some "id-1" |};
     Some {| SendEntry_MessageBody := Some "body-2"; SendEntry_Id := Some "id-2" |}].
Proof. reflexivity. Qed.

Example convertSuccessfulMessageToBatchRequestEntry_two :
  convertSuccessfulMessageToBatchRequestEntry [Samples.m1; Samples.m2]
  = [Some {| DeleteEntry_ReceiptHandle := Some "rh-1"; DeleteEntry_Id := Some "id-1" |};
     Some {| DeleteEntry_ReceiptHandle := Some "rh-2"; DeleteEntry_Id := Some "id-2" |}].
Proof. reflexivity. Qed.

(** ** Single passes *)

Section SinglePass.
Context {σ : Type} {svc : SQSAPI σ}.
Variables (sourceQueueURL destinationQueueURL : string) (numberOfMessages : Z).

Abbreviation body := (loop_body sourceQueueURL destinationQueueURL numberOfMessages).
Abbreviation run := (loop sourceQueueURL destinationQueueURL numberOfMessages).
Abbreviation params := (params sourceQueueURL).
Abbreviation batch_of := (batch_of destinationQueueURL).
Abbreviation deleteMessageBatch_of := (deleteMessageBatch_of sourceQueueURL).

(** Every pass opens with a receive call on the state the service is in. *)
Lemma loop_body_opens_with_receive st s :
  ∃ fl s' out err tail,
    body st s = (fl, s', Receive params out err :: tail)
    ∧ (ReceiveMessage params s).1 = (out, err).
Proof.
  destruct (body st s) as [[fl s'] evs] eqn:Hb.
  pose proof (loop_body_Pass _ _ _ _ _ _ _ _ Hb) as HP.
  destruct HP as [? ? ? Hr|? ? ? Hr|? ? ? ? ? Hr|? ? ? ? Hr|? ? ? ? Hr
                 |? ? ? ? ? ? ? Hr|? ? ? ? ? ? Hr|? ? ? ? ? ? Hr];
    do 5 eexists; (split; [reflexivity|by rewrite Hr]).
Qed.

(** X2: a receive error that comes with messages ends the run at line 169. *)
Lemma receive_error_with_messages_aborts fuel st s resp e s1 :
  ReceiveMessage params s = (resp, Some e, s1) →
  Messages resp ≠ [] →
  run (S fuel) st s =
    {| iterations :=
         [{| before := st;
             events := [Receive params resp (Some e);
                        LogError (AwsFailure "Failed to receive messages" (cause_of e))];
             flow := Return ReceiveFailed |}];
       outcome := Some ReceiveFailed; final := st; service := s1 |}.
Proof.
  intros Hr Hne. apply loop_return, Pass_loop_body. by constructor.
Qed.

(** C2: when the receive call returns a service error together with an empty
    output, which is what the SDK returns for a call that failed, the pass does
    not surface the error: the length test of line 161 comes before the error
    test of line 167, so the run writes "Done. Moved ..." and returns at
    line 164, as it does for a drained queue. *)
Theorem receive_error_with_empty_output_ends_as_drained fuel st s resp e s1 :
  ReceiveMessage params s = (resp, Some e, s1) →
  Messages resp = [] →
  run (S fuel) st s =
    {| iterations :=
         [{| before := st;
             events := [Receive params resp (Some e);
                        LogInfo (DoneMoved numberOfMessages)];
             flow := Return Drained |}];
       outcome := Some Drained; final := st; service := s1 |}.
Proof.
  intros Hr Hnil. apply loop_return, Pass_loop_body. by constructor.
Qed.

(** C5: when the forward call returns no error and no failed entry, but fewer
    successful entries than the batch has messages, the pass issues no delete
    request and does not return: it leaves [messagesProcessed] as it was,
    renders the bar, and the loop goes on with a pass that opens with the next
    receive call. *)
Theorem short_forward_count_skips_delete_and_goes_on fuel st s resp s1 sendResp s2 :
  ReceiveMessage params s = (resp, None, s1) →
  SendMessageBatch (batch_of resp) s1 = (sendResp, None, s2) →
  Send_Failed sendResp = [] →
  (length (Send_Successful sendResp) < length (Messages resp))%nat →
  ∃ st' it out err tail,
    run (S (S fuel)) st s =
      (let r := run (S fuel) st' s2 in
       {| iterations :=
            {| before := st;
               events := [Receive params resp None; Send (batch_of resp) sendResp None;
                          Render (messagesProcessed st) (Total (b st'))];
               flow := Next st' |} :: iterations r;
          outcome := outcome r; final := final r; service := service r |})
    ∧ messagesProcessed st' = messagesProcessed st
    ∧ iterations (run (S fuel) st' s2) !! 0%nat = Some it
    ∧ before it = st'
    ∧ events it = Receive params out err :: tail
    ∧ (ReceiveMessage params s2).1 = (out, err).
Proof.
  intros Hr Hs Hnone Hshort.
  assert (Messages resp ≠ []) as Hne by (intros E; rewrite E in Hshort; simpl in Hshort; lia).
  assert (length (Send_Successful sendResp) ≠ length (Messages resp)) as Hlen by lia.
  pose proof (pass_skipped sourceQueueURL destinationQueueURL numberOfMessages
                st s resp s1 sendResp s2 Hr Hne Hs Hnone Hlen) as HP.
  apply Pass_loop_body in HP.
  set (st' := state_after numberOfMessages (messagesProcessed st) (b st)) in *.
  destruct (loop_body_opens_with_receive st' s2) as (fl & s3 & out & err & tail & Hb & Hfst).
  exists st', {| before := st'; events := Receive params out err :: tail; flow := fl |},
    out, err, tail.
  split; [by rewrite (loop_next _ _ _ _ _ _ _ _ _ HP)|].
  split; [done|].
  split; [|done].
  simpl. rewrite Hb. by destruct fl.
Qed.

(** C8: when the forward call fails as a whole, the run ends in that pass, at
    line 181: the pass made the receive and the forward call and no delete
    call, and the service is left in the state the forward call put it in. *)
Theorem forward_error_aborts_before_delete fuel st s resp s1 sendResp e s2 :
  ReceiveMessage params s = (resp, None, s1) →
  Messages resp ≠ [] →
  SendMessageBatch (batch_of resp) s1 = (sendResp, Some e, s2) →
  let r := run (S fuel) st s in
  r = {| iterations :=
           [{| before := st;
               events := [Receive params resp None;
                          Send (batch_of resp) sendResp (Some e);
                          LogError (AwsFailure "Failed to un-queue messages to the destination"
                                               (cause_of e))];
               flow := Return SendFailed |}];
         outcome := Some SendFailed; final := st; service := s2 |}
  ∧ filter (λ ev, is_delete ev = true) (calls r) = [].
Proof.
  intros Hr Hne Hs.
  assert (run (S fuel) st s = {| iterations :=
           [{| before := st;
               events := [Receive params resp None;
                          Send (batch_of resp) sendResp (Some e);
                          LogError (AwsFailure "Failed to un-queue messages to the destination"
                                               (cause_of e))];
               flow := Return SendFailed |}];
         outcome := Some SendFailed; final := st; service := s2 |}) as Hrun.
  { apply loop_return, Pass_loop_body. by eapply pass_send_failed. }
  cbv zeta. split; [exact Hrun|]. by rewrite Hrun.
Qed.

(** C9: in a pass that reaches the delete call, when that call fails as a whole
    or its response lists a failed entry, the run ends in that pass, at line
    199 or 204: [messagesProcessed] is what it was before the pass, and no
    further pass starts. *)
Theorem delete_failure_aborts_without_counting
    fuel st s resp s1 sendResp s2 deleteResp err s3 :
  ReceiveMessage params s = (resp, None, s1) →
  Messages resp ≠ [] →
  SendMessageBatch (batch_of resp) s1 = (sendResp, None, s2) →
  Send_Failed sendResp = [] →
  length (Send_Successful sendResp) = length (Messages resp) →
  DeleteMessageBatch (deleteMessageBatch_of resp) s2 = (deleteResp, err, s3) →
  err ≠ None ∨ Delete_Failed deleteResp ≠ [] →
  ∃ site line,
    run (S fuel) st s =
      {| iterations :=
           [{| before := st;
               events := [Receive params resp None; Send (batch_of resp) sendResp None;
                          Delete (deleteMessageBatch_of resp) deleteResp err;
                          LogError line];
               flow := Return site |}];
         outcome := Some site; final := st; service := s3 |}
    ∧ (site = DeleteFailed ∨ site = DeleteIncomplete).
Proof.
  intros Hr Hne Hs Hnone Hall Hd Hbad.
  destruct err as [e|].
  - exists DeleteFailed,
      (AwsFailure "Failed to delete messages from source queue" (cause_of e)).
    split; [|by left]. apply loop_return, Pass_loop_body.
    by eapply pass_delete_failed.
  - destruct Hbad as [?|Hleft]; [done|].
    exists DeleteIncomplete, (NotDeleted (Delete_Failed deleteResp)).
    split; [|by right]. apply loop_return, Pass_loop_body.
    by eapply pass_delete_incomplete.
Qed.

End SinglePass.

(** *** The single passes on the sample inputs *)

Lemma receive_error_with_empty_output_ends_as_drained_witness :
  loop "src" "dst" 7 3 Samples.somewhere Samples.receive_down =
    {| iterations :=
         [{| before := Samples.somewhere;
             events := [Receive (params "src") {| Messages := [] |} (Some Samples.unreachable);
                        LogInfo (DoneMoved 7)];
             flow := Return Drained |}];
       outcome := Some Drained;
       final := Samples.somewhere;
       service := {| Scripted.receives := []; Scripted.sends := []; Scripted.deletes := [] |} |}.
Proof.
  apply (receive_error_with_empty_output_ends_as_drained "src" "dst" 7 2
           Samples.somewhere Samples.receive_down);
    reflexivity.
Defined.

Lemma short_forward_count_skips_delete_and_goes_on_witness :
  ∃ it out err tail,
    iterations (loop "src" "dst" 40 2 Samples.somewhere Samples.forward_short) !! 1%nat
    = Some it
    ∧ messagesProcessed (before it) = 30
    ∧ events it = Receive (params "src") out err :: tail.
Proof.
  destruct (short_forward_count_skips_delete_and_goes_on (svc := Scripted.api) "src" "dst" 40 0
              Samples.somewhere Samples.forward_short
              {| Messages := [Samples.m1; Samples.m2] |}
              {| Scripted.receives := [];
                 Scripted.sends := Scripted.sends Samples.forward_short;
                 Scripted.deletes := [] |}
              {| Send_Successful := [Samples.ok Samples.m1]; Send_Failed := [] |}
              {| Scripted.receives := []; Scripted.sends := []; Scripted.deletes := [] |}
              ltac:(reflexivity) ltac:(reflexivity) ltac:(reflexivity) ltac:(simpl; lia))
    as (st' & it & out & err & tail & Hrun & Hmp & Hit & Hbefore & Hev & _).
  exists it, out, err, tail. rewrite Hrun. cbv zeta.
  split; [exact Hit|]. split; [|exact Hev].
  rewrite Hbefore. exact Hmp.
Defined.

Lemma forward_error_aborts_before_delete_witness :
  let r := loop "src" "dst" 40 5 Samples.somewhere Samples.forward_down in
  outcome r = Some SendFailed
  ∧ final r = Samples.somewhere
  ∧ service r = {| Scripted.receives := []; Scripted.sends := []; Scripted.deletes := [] |}
  ∧ filter (λ ev, is_delete ev = true) (calls r) = [].
Proof.
  destruct (forward_error_aborts_before_delete (svc := Scripted.api) "src" "dst" 40 4
              Samples.somewhere Samples.forward_down
              {| Messages := [Samples.m1; Samples.m2] |}
              {| Scripted.receives := [];
                 Scripted.sends := Scripted.sends Samples.forward_down;
                 Scripted.deletes := [] |}
              {| Send_Successful := []; Send_Failed := [] |}
              Samples.unreachable
              {| Scripted.receives := []; Scripted.sends := []; Scripted.deletes := [] |}
              ltac:(reflexivity) ltac:(discriminate) ltac:(reflexivity))
    as [Hrun Hnone].
  cbv zeta. split; [|split; [|split]]; [by rewrite Hrun ..|exact Hnone].
Defined.

Lemma delete_failure_aborts_without_counting_witness :
  let r := loop "src" "dst" 40 5 Samples.somewhere Samples.delete_partial in
  length (iterations r) = 1%nat
  ∧ messagesProcessed (final r) = 30
  ∧ (outcome r = Some DeleteFailed ∨ outcome r = Some DeleteIncomplete).
Proof.
  destruct (delete_failure_aborts_without_counting (svc := Scripted.api) "src" "dst" 40 4
              Samples.somewhere Samples.delete_partial
              {| Messages := [Samples.m1; Samples.m2] |}
              {| Scripted.receives := [];
                 Scripted.sends := Scripted.sends Samples.delete_partial;
                 Scripted.deletes := Scripted.deletes Samples.delete_partial |}
              {| Send_Successful := [Samples.ok Samples.m1; Samples.ok Samples.m2];
                 Send_Failed := [] |}
              {| Scripted.receives := []; Scripted.sends := [];
                 Scripted.deletes := Scripted.deletes Samples.delete_partial |}
              {| Delete_Successful := [Samples.ok Samples.m1];
                 Delete_Failed := [Samples.ko Samples.m2] |}
              None
              {| Scripted.receives := []; Scripted.sends := []; Scripted.deletes := [] |}
              ltac:(reflexivity) ltac:(discriminate) ltac:(reflexivity)
              ltac:(reflexivity) ltac:(reflexivity) ltac:(reflexivity)
              ltac:(right; discriminate))
    as (site & line & Hrun & Hsite).
  cbv zeta. rewrite Hrun. simpl. split; [done|]. split; [done|].
  destruct Hsite as [-> | ->]; [by left|by right].
Defined.

Example delete_error_run :
  let r := loop "src" "dst" 40 5 Samples.somewhere Samples.delete_down in
  outcome r = Some DeleteFailed ∧ messagesProcessed (final r) = 30
  ∧ length (iterations r) = 1%nat.
Proof. by vm_compute. Qed.

Example forward_partial_run :
  let r := moveMessages "src" "dst" 10 5 Samples.forward_partial in
  outcome r = Some EnqueueFailed ∧ messagesProcessed (final r) = 0
  ∧ filter (λ ev, is_delete ev = true) (calls r) = [].
Proof. by vm_compute. Qed.

(** ** Every pass of a run *)

Lemma omap_id_Some {A B} (f : A → B) (l : list A) :
  omap id ((λ x, Some (f x)) <$> l) = f <$> l.
Proof. induction l as [|x l IH]; csimpl; [done|]. by rewrite IH. Qed.

Lemma requested_batch_of destinationQueueURL resp :
  requested (batch_of destinationQueueURL resp) = MessageId <$> Messages resp.
Proof.
  unfold requested, batch_of. simpl. rewrite convertToEntries_map.
  change (map (λ m, Some (send_entry_of m)) (Messages resp))
    with ((λ m, Some (send_entry_of m)) <$> Messages resp).
  rewrite omap_id_Some, <- list_fmap_compose. done.
Qed.

(** As many distinct reports as messages, all about requested entries: then
    every message of the batch is reported. *)
Lemma full_count_confirms_all destinationQueueURL resp out m :
  reports_each_entry_once (batch_of destinationQueueURL resp) out →
  length (Send_Successful out) = length (Messages resp) →
  m ∈ Messages resp →
  MessageId m ∈ delivered out.
Proof.
  intros [Hnodup Hsub] Hlen Hm.
  rewrite requested_batch_of in Hsub.
  assert (delivered out ≡ₚ MessageId <$> Messages resp) as Hperm.
  { apply submseteq_length_Permutation.
    - apply NoDup_submseteq; [done|]. intros x Hx. by apply Hsub.
    - unfold delivered. rewrite !length_fmap. lia. }
  rewrite Hperm. by apply list_elem_of_fmap_2.
Qed.

Section EveryPass.
Context {σ : Type} {svc : SQSAPI σ}.
Variables (sourceQueueURL destinationQueueURL : string) (numberOfMessages : Z).

Abbreviation run := (loop sourceQueueURL destinationQueueURL numberOfMessages).
Abbreviation Pass' := (Pass sourceQueueURL destinationQueueURL numberOfMessages).
Abbreviation params := (params sourceQueueURL).
Abbreviation batch_of := (batch_of destinationQueueURL).
Abbreviation deleteMessageBatch_of := (deleteMessageBatch_of sourceQueueURL).

(** Membership in the explicit event list of a pass, case by case. *)
Ltac which_event H :=
  repeat (apply elem_of_cons in H as [H|H]);
  try (apply elem_of_nil in H; destruct H);
  try discriminate H.

Lemma Pass_delete_guard st s fl s' evs :
  Pass' st s fl s' evs →
  (∀ batch out err, Send batch out err ∈ evs → Send_Failed out ≠ [] →
     ∀ d dout derr, Delete d dout derr ∉ evs)
  ∧ (∀ d dout derr, Delete d dout derr ∈ evs →
     ∃ resp out tail,
       evs = Receive params resp None :: Send (batch_of resp) out None
               :: Delete d dout derr :: tail
       ∧ Send_Failed out = []
       ∧ length (Send_Successful out) = length (Messages resp)
       ∧ d = deleteMessageBatch_of resp).
Proof.
  destruct 1; (split;
    [ intros batch out err' Hsend Hfailed d dout derr Hdel;
      which_event Hsend; which_event Hdel;
      injection Hsend as -> -> ->; congruence
    | intros d dout derr Hdel; which_event Hdel;
      injection Hdel as -> -> ->; by do 3 eexists ]).
Qed.

Lemma Pass_receive_params st s fl s' evs input out err :
  Pass' st s fl s' evs → Receive input out err ∈ evs →
  input = params
  ∧ (∀ batch sout serr, Send batch sout serr ∈ evs → batch = batch_of out)
  ∧ (∀ d dout derr, Delete d dout derr ∈ evs → d = deleteMessageBatch_of out).
Proof.
  destruct 1; intros Hrecv; which_event Hrecv; injection Hrecv as -> -> ->;
    (split; [done|]); split;
    intros x xout xerr Hx; which_event Hx; by injection Hx as -> -> ->.
Qed.

(** C1: in every pass of a run, a forward response that lists a failed entry
    rules out a delete request in that pass; and a delete request is issued
    only after a forward call of the same pass returned no error, no failed
    entry and as many successful entries as the batch has messages.  Its
    entries are the delete entries of the messages of that batch, in order;
    and, the service reporting on requested entries only and on none twice,
    each of them is the delete entry of a message the forward response
    confirmed. *)
Theorem delete_only_after_full_forward fuel st s it :
  it ∈ iterations (run fuel st s) →
  (∀ batch out err, Send batch out err ∈ events it → Send_Failed out ≠ [] →
     ∀ d dout derr, Delete d dout derr ∉ events it)
  ∧ (∀ d dout derr, Delete d dout derr ∈ events it →
     ∃ resp out tail,
       events it = Receive params resp None :: Send (batch_of resp) out None
                     :: Delete d dout derr :: tail
       ∧ Send_Failed out = []
       ∧ length (Send_Successful out) = length (Messages resp)
       ∧ Delete_Entries d = (λ m, Some (delete_entry_of m)) <$> Messages resp
       ∧ (reports_each_entry_once (batch_of resp) out →
          ∀ entry, entry ∈ Delete_Entries d →
            ∃ m, m ∈ forwarded (Messages resp) out ∧ entry = Some (delete_entry_of m))).
Proof.
  intros Hit. destruct (loop_iterations_Pass _ _ _ _ _ _ _ Hit) as (s0 & s1 & HP).
  destruct (Pass_delete_guard _ _ _ _ _ HP) as [Hnone Honly].
  split; [exact Hnone|].
  intros d dout derr Hdel.
  destruct (Honly d dout derr Hdel) as (resp & out & tail & Hevs & Hfailed & Hlen & ->).
  exists resp, out, tail.
  assert (Delete_Entries (deleteMessageBatch_of resp)
          = (λ m, Some (delete_entry_of m)) <$> Messages resp) as Hentries.
  { simpl. apply convertSuccessfulMessageToBatchRequestEntry_map. }
  repeat (split; [done|]).
  intros Honce entry. rewrite Hentries.
  intros (m & -> & Hm)%list_elem_of_fmap.
  exists m. split; [|done].
  apply list_elem_of_filter. split; [|done].
  by eapply full_count_confirms_all.
Qed.

(** C10: every receive request of a run asks for at most 10 messages (it asks
    for 10) and for a wait time of zero; so, the service handing out no more
    messages than it is asked for, the batch of the pass has at most 10
    messages, and so have the forward and the delete request made from it. *)
Theorem receive_asks_for_ten_without_waiting fuel st s it input out err :
  it ∈ iterations (run fuel st s) →
  Receive input out err ∈ events it →
  MaxNumberOfMessages input = Some 10
  ∧ WaitTimeSeconds input = Some 0
  ∧ (honours_max input out →
     (length (Messages out) ≤ 10)%nat
     ∧ (∀ batch sout serr, Send batch sout serr ∈ events it →
          (length (Send_Entries batch) ≤ 10)%nat)
     ∧ (∀ d dout derr, Delete d dout derr ∈ events it →
          (length (Delete_Entries d) ≤ 10)%nat)).
Proof.
  intros Hit Hrecv. destruct (loop_iterations_Pass _ _ _ _ _ _ _ Hit) as (s0 & s1 & HP).
  destruct (Pass_receive_params _ _ _ _ _ _ _ _ HP Hrecv) as (-> & Hsend & Hdel).
  split; [done|]. split; [done|].
  unfold honours_max, GoInt.len. simpl. intros Hmax.
  split; [lia|]. split.
  - intros batch sout serr Hin. rewrite (Hsend _ _ _ Hin). simpl.
    rewrite convertToEntries_map, length_map. lia.
  - intros d dout derr Hin. rewrite (Hdel _ _ _ Hin). simpl.
    rewrite convertSuccessfulMessageToBatchRequestEntry_map, length_map. lia.
Qed.

End EveryPass.

(** *** A pass that moves one message *)

Example first_pass_of_one :
  iterations (moveMessages "src" "dst" 1 5 Samples.one) !! 0%nat = Some Samples.first_pass.
Proof. by vm_compute. Qed.

Lemma delete_only_after_full_forward_witness :
  ∃ m, m ∈ forwarded [Samples.m1] Samples.forwarded_one
       ∧ Some (delete_entry_of Samples.m1) = Some (delete_entry_of m).
Proof.
  destruct (delete_only_after_full_forward (svc := Queues.api) "src" "dst" 1 5
              (initial 1) Samples.one Samples.first_pass
              ltac:(vm_compute; apply list_elem_of_here))
    as [_ Honly].
  destruct (Honly (deleteMessageBatch_of "src" Samples.received_one) Samples.deleted_one None
              ltac:(do 2 apply list_elem_of_further; apply list_elem_of_here))
    as (resp & out & tail & Hevs & _ & _ & _ & Hconfirmed).
  assert (resp = Samples.received_one ∧ out = Samples.forwarded_one) as [-> ->]
    by (by inversion Hevs).
  apply Hconfirmed.
  - split; [apply NoDup_singleton|done].
  - apply list_elem_of_here.
Defined.

Lemma receive_asks_for_ten_without_waiting_witness :
  MaxNumberOfMessages (params "src") = Some 10
  ∧ WaitTimeSeconds (params "src") = Some 0
  ∧ (length (Messages Samples.received_one) ≤ 10)%nat.
Proof.
  destruct (receive_asks_for_ten_without_waiting (svc := Queues.api) "src" "dst" 1 5
              (initial 1) Samples.one Samples.first_pass
              (params "src") Samples.received_one None
              ltac:(vm_compute; apply list_elem_of_here)
              ltac:(apply list_elem_of_here))
    as (Hmax & Hwait & Hsize).
  split; [exact Hmax|]. split; [exact Hwait|].
  apply Hsize. unfold honours_max, GoInt.len. simpl. lia.
Defined.

(** ** The count and the bar across a run *)

Lemma add_in_range x y :
  0 ≤ x → 0 ≤ y → x + y ≤ GoInt.max_int → GoInt.add x y = x + y.
Proof.
  unfold GoInt.add, GoInt.wrap, GoInt.max_int. intros Hx Hy Hmax.
  rewrite Z.mod_small; lia.
Qed.

Lemma confirmed_size_nonneg evs : 0 ≤ confirmed_size evs.
Proof.
  unfold confirmed_size, GoInt.len.
  repeat (case_match; try lia).
Qed.

Lemma moved_cons it its : moved (it :: its) = confirmed_size (events it) + moved its.
Proof. reflexivity. Qed.

Lemma moved_nonneg its : 0 ≤ moved its.
Proof.
  induction its as [|it its IH]; [done|]. rewrite moved_cons.
  pose proof (confirmed_size_nonneg (events it)). lia.
Qed.

Lemma climbs_adjacent l i st st' :
  climbs l → l !! i = Some st → l !! S i = Some st' → advances st st'.
Proof.
  revert i. induction l as [|a [|c l] IH]; intros i Hc Hi HS; try done.
  destruct i as [|i]; simpl in *.
  - injection Hi as <-. injection HS as <-. tauto.
  - apply (IH i); tauto.
Qed.

Lemma climbs_monotone l i j st st' :
  climbs l → (i ≤ j)%nat → l !! i = Some st → l !! j = Some st' →
  messagesProcessed st ≤ messagesProcessed st' ∧ Total (b st) ≤ Total (b st').
Proof.
  intros Hc Hle Hi. revert st'. induction Hle as [|j Hle IH]; intros st' Hj.
  - rewrite Hi in Hj. injection Hj as <-. lia.
  - destruct (lookup_lt_is_Some_2 l j) as [mid Hmid].
    { apply lookup_lt_Some in Hj. lia. }
    destruct (IH mid Hmid) as [? ?].
    destruct (climbs_adjacent l j mid st' Hc Hmid Hj) as (? & ? & _). lia.
Qed.

Section Progress.
Context {σ : Type} {svc : SQSAPI σ}.
Variables (sourceQueueURL destinationQueueURL : string) (numberOfMessages : Z).

Abbreviation body := (loop_body sourceQueueURL destinationQueueURL numberOfMessages).
Abbreviation run := (loop sourceQueueURL destinationQueueURL numberOfMessages).
Abbreviation Pass' := (Pass sourceQueueURL destinationQueueURL numberOfMessages).

(** One pass keeps the variables in step and counts the batch it moved. *)
Lemma Pass_advances st s fl s' evs :
  Pass' st s fl s' evs →
  0 ≤ messagesProcessed st →
  bar_follows numberOfMessages st →
  messagesProcessed st + confirmed_size evs ≤ GoInt.max_int →
  match fl with
  | Return _ => confirmed_size evs = 0
  | Next st' =>
    messagesProcessed st' = messagesProcessed st + confirmed_size evs
    ∧ 0 ≤ messagesProcessed st'
    ∧ bar_follows numberOfMessages st'
    ∧ advances st st'
  end.
Proof.
  destruct 1; try reflexivity; intros Hpos Hbar Hmax.
  - (* the pass that found the queue drained *)
    by destruct err.
  - (* the pass that skipped the delete *)
    subst st'. unfold advances, bar_follows, state_after, bar_after in *. simpl.
    destruct (Z.ltb_spec numberOfMessages (messagesProcessed st)); simpl; lia.
  - (* the pass that moved the batch *)
    subst st'. unfold advances, bar_follows, state_after, bar_after in *.
    change (confirmed_size _) with (GoInt.len (Messages resp)) in *.
    pose proof (len_nonneg (Messages resp)).
    rewrite add_in_range by lia. simpl.
    destruct (Z.ltb_spec numberOfMessages
                (messagesProcessed st + GoInt.len (Messages resp))); simpl; lia.
Qed.

Lemma visited_head fuel st s : ∃ rest, visited (run fuel st s) = st :: rest.
Proof.
  unfold visited. destruct fuel as [|fuel]; simpl; [by eexists|].
  destruct (body st s) as [[[st'|site] s'] evs]; simpl; by eexists.
Qed.

Lemma visited_next fuel st s st' s' evs :
  body st s = (Next st', s', evs) →
  visited (run (S fuel) st s) = st :: visited (run fuel st' s').
Proof. intros Hb. by rewrite (loop_next _ _ _ _ _ _ _ _ _ Hb). Qed.

Lemma visited_return fuel st s site s' evs :
  body st s = (Return site, s', evs) →
  visited (run (S fuel) st s) = [st; st].
Proof. intros Hb. by rewrite (loop_return _ _ _ _ _ _ _ _ _ Hb). Qed.

(** The value handed to [b.ValueInt] at line 215 is never above the bar's
    total, which is what the assignment of line 212 is there for. *)
Lemma Pass_value_within_total st s st' s' evs :
  Pass' st s (Next st') s' evs →
  0 ≤ messagesProcessed st →
  bar_follows numberOfMessages st →
  messagesProcessed st + confirmed_size evs ≤ GoInt.max_int →
  value (b st') ≤ Total (b st').
Proof.
  intros HP Hpos Hbar Hmax.
  destruct (Pass_advances _ _ _ _ _ HP Hpos Hbar Hmax) as (_ & _ & Hbar' & Hadv).
  unfold bar_follows, advances in *.
  inversion HP; subst; simpl in *;
    match goal with
    | |- context [numberOfMessages <? ?x] =>
      destruct (Z.ltb_spec numberOfMessages x); simpl in *; lia
    end.
Qed.

(** From variables in step, a run climbs, and ends with the count it started
    from plus the sizes of the batches it moved. *)
Lemma loop_climbs fuel st s :
  0 ≤ messagesProcessed st →
  bar_follows numberOfMessages st →
  messagesProcessed st + moved (iterations (run fuel st s)) ≤ GoInt.max_int →
  climbs (visited (run fuel st s))
  ∧ messagesProcessed (final (run fuel st s))
    = messagesProcessed st + moved (iterations (run fuel st s)).
Proof.
  revert st s. induction fuel as [|fuel IH]; intros st s Hpos Hbar.
  - unfold visited, moved. simpl. intros _. split; [done|lia].
  - destruct (body st s) as [[fl s'] evs] eqn:Hb.
    pose proof (loop_body_Pass _ _ _ _ _ _ _ _ Hb) as HP.
    pose proof (Pass_advances _ _ _ _ _ HP Hpos Hbar) as Hstep.
    destruct fl as [st'|site].
    + rewrite (visited_next _ _ _ _ _ _ Hb), (loop_next _ _ _ _ _ _ _ _ _ Hb).
      cbv zeta. cbn [iterations final]. rewrite moved_cons. cbn [events].
      intros Hmax.
      pose proof (moved_nonneg (iterations (run fuel st' s'))) as Hrest.
      destruct Hstep as (Hcount & Hpos' & Hbar' & Hadv); [lia|].
      destruct (IH st' s' Hpos' Hbar') as [Hclimb Hfinal]; [lia|].
      destruct (visited_head fuel st' s') as [rest Hhead].
      rewrite Hhead in *. split; [|lia].
      change (advances st st' ∧ climbs (st' :: rest)). by split.
    + rewrite (visited_return _ _ _ _ _ _ Hb), (loop_return _ _ _ _ _ _ _ _ _ Hb).
      cbn [iterations final]. rewrite moved_cons. cbn [events].
      change (moved []) with 0. intros Hmax.
      rewrite Hstep by lia.
      split; [|lia].
      change (advances st st ∧ True). split; [|done]. unfold advances. lia.
Qed.


(** X8: a run that returns at line 164 has written the "Done. Moved ..." line in
    its last pass, with [numberOfMessages] for the count. *)
Lemma drained_run_reports_numberOfMessages fuel st s :
  outcome (run fuel st s) = Some Drained →
  ∃ it, last (iterations (run fuel st s)) = Some it
        ∧ reported (events it) = Some numberOfMessages.
Proof.
  revert st s. induction fuel as [|fuel IH]; intros st s; [done|].
  destruct (body st s) as [[fl s'] evs] eqn:Hb.
  pose proof (loop_body_Pass _ _ _ _ _ _ _ _ Hb) as HP.
  destruct fl as [st'|site].
  - rewrite (loop_next _ _ _ _ _ _ _ _ _ Hb). cbv zeta. cbn [iterations outcome].
    intros Hout. destruct (IH st' s' Hout) as (it & Hlast & Hrep).
    exists it. split; [|done].
    destruct (iterations (run fuel st' s')) as [|it' its]; [done|].
    by rewrite last_cons_cons.
  - rewrite (loop_return _ _ _ _ _ _ _ _ _ Hb). cbn [iterations outcome].
    intros [= ->]. eexists. split; [done|].
    by inversion HP.
Qed.

(** C7: in a run of [moveMessages] that moves no more messages than an [int]
    holds, [messagesProcessed] and the bar's total never go down from one pass
    to a later one; and from one pass to the next the total changes only when
    the new count is above it, and then it becomes that count. *)
Theorem count_and_total_never_go_down fuel s :
  let r := moveMessages sourceQueueURL destinationQueueURL numberOfMessages fuel s in
  moved (iterations r) ≤ GoInt.max_int →
  (∀ i j st st', (i ≤ j)%nat →
     visited r !! i = Some st → visited r !! j = Some st' →
     messagesProcessed st ≤ messagesProcessed st' ∧ Total (b st) ≤ Total (b st'))
  ∧ (∀ i st st',
     visited r !! i = Some st → visited r !! S i = Some st' →
     Total (b st') ≠ Total (b st) →
     Total (b st) < messagesProcessed st' ∧ Total (b st') = messagesProcessed st').
Proof.
  cbv zeta. unfold moveMessages. intros Hmax.
  destruct (loop_climbs fuel (initial numberOfMessages) s) as [Hclimb _];
    [done|by left|by simpl|].
  split.
  - intros i j st st' Hle Hi Hj. by eapply climbs_monotone.
  - intros i st st' Hi HS Hchanged.
    destruct (climbs_adjacent _ _ _ _ Hclimb Hi HS) as (_ & _ & Hrev). by apply Hrev.
Qed.

End Progress.

(** *** Twelve messages under an estimate of five *)

Lemma count_and_total_never_go_down_witness :
  let r := moveMessages "src" "dst" 5 10 Samples.twelve in
  (∀ i j st st', (i ≤ j)%nat →
     visited r !! i = Some st → visited r !! j = Some st' →
     messagesProcessed st ≤ messagesProcessed st' ∧ Total (b st) ≤ Total (b st'))
  ∧ (∀ i st st',
     visited r !! i = Some st → visited r !! S i = Some st' →
     Total (b st') ≠ Total (b st) →
     Total (b st) < messagesProcessed st' ∧ Total (b st') = messagesProcessed st').
Proof.
  apply (count_and_total_never_go_down (svc := Queues.api) "src" "dst" 5 10 Samples.twelve).
  by vm_compute.
Defined.

Example twelve_under_five_visits :
  visited (moveMessages "src" "dst" 5 10 Samples.twelve)
  = [ {| messagesProcessed := 0; b := {| Total := 5; value := 0 |} |};
      {| messagesProcessed := 10; b := {| Total := 10; value := 10 |} |};
      {| messagesProcessed := 12; b := {| Total := 12; value := 12 |} |};
      {| messagesProcessed := 12; b := {| Total := 12; value := 12 |} |} ].
Proof. by vm_compute. Qed.

(** C3: with an estimate of 5 and twelve messages in the source, the run moves
    two batches, of 10 and of 2, finds the queue empty and returns at line 164;
    [messagesProcessed] is 12, the sum of the two batch sizes, and the
    "Done. Moved ..." line reports 5: line 163 prints [numberOfMessages], the
    estimate, not [messagesProcessed]. *)
Theorem done_line_reports_the_estimate :
  let r := moveMessages "src" "dst" 5 10 Samples.twelve in
  outcome r = Some Drained
  ∧ (λ it, confirmed_size (events it)) <$> iterations r = [10; 2; 0]
  ∧ moved (iterations r) = 12
  ∧ messagesProcessed (final r) = 12
  ∧ (λ it, reported (events it)) <$> last (iterations r) = Some (Some 5).
Proof. by vm_compute. Qed.

(** ** The estimate and the course of the transfer *)

Section Estimate.
Context {σ : Type} {svc : SQSAPI σ}.
Variables (sourceQueueURL destinationQueueURL : string).

Abbreviation run := (loop sourceQueueURL destinationQueueURL).
Abbreviation body := (loop_body sourceQueueURL destinationQueueURL).
Abbreviation Pass' := (Pass sourceQueueURL destinationQueueURL).

(** The conditions of a pass are on the answers of the service alone: with
    another estimate and another bar, the pass makes the same calls and ends
    the same way. *)
Lemma Pass_estimate_irrelevant n n' st st' s fl s1 evs :
  messagesProcessed st = messagesProcessed st' →
  Pass' n st s fl s1 evs →
  ∃ fl' evs',
    Pass' n' st' s fl' s1 evs'
    ∧ filter (λ e, is_call e = true) evs' = filter (λ e, is_call e = true) evs
    ∧ same_course fl fl'.
Proof.
  intros Hmp HP.
  destruct HP; do 2 eexists;
    (split;
      [ first [ by eapply pass_drained | by eapply pass_receive_failed
              | by eapply pass_send_failed | by eapply pass_enqueue_failed
              | by eapply pass_skipped | by eapply pass_delete_failed
              | by eapply pass_delete_incomplete | by eapply pass_moved ]
      | split; [reflexivity | simpl; congruence] ]).
Qed.

Lemma loop_estimate_irrelevant n n' fuel st st' s :
  messagesProcessed st = messagesProcessed st' →
  let r := run n fuel st s in
  let r' := run n' fuel st' s in
  calls r = calls r'
  ∧ outcome r = outcome r'
  ∧ service r = service r'
  ∧ messagesProcessed (final r) = messagesProcessed (final r')
  ∧ length (iterations r) = length (iterations r').
Proof.
  cbv zeta. revert st st' s. induction fuel as [|fuel IH]; intros st st' s Hmp; [done|].
  destruct (body n st s) as [[fl s1] evs] eqn:Hb.
  pose proof (loop_body_Pass _ _ _ _ _ _ _ _ Hb) as HP.
  destruct (Pass_estimate_irrelevant n n' st st' s fl s1 evs Hmp HP)
    as (fl' & evs' & HP' & Hcalls & Hcourse).
  apply Pass_loop_body in HP'.
  destruct fl as [st1|site], fl' as [st1'|site']; try done; simpl in Hcourse.
  - rewrite (loop_next _ _ _ _ _ _ _ _ _ Hb), (loop_next _ _ _ _ _ _ _ _ _ HP').
    cbv zeta. destruct (IH st1 st1' s1 Hcourse) as (Hc & Ho & Hs & Hf & Hl).
    cbn [outcome service final iterations].
    repeat split; try done.
    + unfold calls in *. cbn [iterations]. rewrite !fmap_cons. cbn [events concat].
      rewrite !filter_app, Hcalls. f_equal. exact Hc.
    + simpl. by rewrite Hl.
  - subst site'.
    rewrite (loop_return _ _ _ _ _ _ _ _ _ Hb), (loop_return _ _ _ _ _ _ _ _ _ HP').
    repeat split; try done.
    unfold calls. simpl. rewrite !app_nil_r. by rewrite Hcalls.
Qed.

(** C4, as the program has it: whatever the estimate passed to
    [moveMessages], zero included, the run makes the same service calls with
    the same answers, takes as many passes, ends at the same [return] or is
    still running, counts as many messages and leaves the service in the same
    state; [main] itself does not call [moveMessages] for an estimate of zero,
    and calls it for any other. *)
Theorem estimate_never_steers_moveMessages n n' fuel s :
  let r := moveMessages sourceQueueURL destinationQueueURL n fuel s in
  let r' := moveMessages sourceQueueURL destinationQueueURL n' fuel s in
  (calls r = calls r'
   ∧ outcome r = outcome r'
   ∧ service r = service r'
   ∧ messagesProcessed (final r) = messagesProcessed (final r')
   ∧ length (iterations r) = length (iterations r'))
  ∧ main sourceQueueURL destinationQueueURL 0 fuel s = ([LogInfo NothingToMove], None)
  ∧ (n ≠ 0 → main sourceQueueURL destinationQueueURL n fuel s = (trace r, Some r)).
Proof.
  cbv zeta. split; [|split].
  - by apply loop_estimate_irrelevant.
  - reflexivity.
  - intros Hn. unfold main. by destruct (Z.eqb_spec n 0).
Qed.

End Estimate.

Lemma estimate_never_steers_moveMessages_witness :
  let r := moveMessages "src" "dst" 5 10 Samples.twelve in
  let r' := moveMessages "src" "dst" 0 10 Samples.twelve in
  calls r = calls r'
  ∧ outcome r = outcome r'
  ∧ main "src" "dst" 5 10 Samples.twelve = (trace r, Some r).
Proof.
  destruct (estimate_never_steers_moveMessages (svc := Queues.api) "src" "dst" 5 0 10
              Samples.twelve)
    as ((Hcalls & Hout & _) & _ & Hmain).
  cbv zeta. split; [exact Hcalls|]. split; [exact Hout|].
  apply Hmain. lia.
Defined.

(** C4, as the claim has it, fails in [main]: on a source queue of one message,
    an estimate of zero makes no service call at all, and an estimate of one
    makes the four calls that move the message and find the queue empty. *)
Lemma estimate_of_zero_skips_the_transfer :
  transfers (main "src" "dst" 0 5 Samples.one) = []
  ∧ length (transfers (main "src" "dst" 1 5 Samples.one)) = 4%nat
  ∧ transfers (main "src" "dst" 0 5 Samples.one)
    ≠ transfers (main "src" "dst" 1 5 Samples.one).
Proof. by vm_compute. Qed.

(** * Further properties of the loop *)

(** ** The other ways through the body *)

Section OtherPasses.
Context {σ : Type} {svc : SQSAPI σ}.
Variables (sourceQueueURL destinationQueueURL : string) (numberOfMessages : Z).

Abbreviation run := (loop sourceQueueURL destinationQueueURL numberOfMessages).
Abbreviation Pass' := (Pass sourceQueueURL destinationQueueURL numberOfMessages).
Abbreviation params := (params sourceQueueURL).
Abbreviation batch_of := (batch_of destinationQueueURL).
Abbreviation deleteMessageBatch_of := (deleteMessageBatch_of sourceQueueURL).

(** X1: when the forward response lists a failed entry, the run ends in that
    pass, at line 186: it logs how many entries failed, makes no delete call,
    leaves [messagesProcessed] as it was and the service in the state the
    forward call left. *)
Theorem forward_with_failed_entries_aborts fuel st s resp s1 sendResp s2 :
  ReceiveMessage params s = (resp, None, s1) →
  Messages resp ≠ [] →
  SendMessageBatch (batch_of resp) s1 = (sendResp, None, s2) →
  Send_Failed sendResp ≠ [] →
  run (S fuel) st s =
    {| iterations :=
         [{| before := st;
             events := [Receive params resp None; Send (batch_of resp) sendResp None;
                        LogError (FailedToEnqueue (GoInt.len (Send_Failed sendResp)))];
             flow := Return EnqueueFailed |}];
       outcome := Some EnqueueFailed; final := st; service := s2 |}.
Proof.
  intros Hr Hne Hs Hfailed. apply loop_return, Pass_loop_body.
  by eapply pass_enqueue_failed.
Qed.

(** X3: when receive, forward and delete all go through in full, the pass adds
    the size of the batch to [messagesProcessed], raises the bar's total to
    the new count if the estimate is below it, renders, and the loop goes on
    from the state the delete call left the service in. *)
Theorem full_pass_counts_the_batch
    fuel st s resp s1 sendResp s2 deleteResp s3 :
  ReceiveMessage params s = (resp, None, s1) →
  Messages resp ≠ [] →
  SendMessageBatch (batch_of resp) s1 = (sendResp, None, s2) →
  Send_Failed sendResp = [] →
  length (Send_Successful sendResp) = length (Messages resp) →
  DeleteMessageBatch (deleteMessageBatch_of resp) s2 = (deleteResp, None, s3) →
  Delete_Failed deleteResp = [] →
  0 ≤ messagesProcessed st →
  messagesProcessed st + GoInt.len (Messages resp) ≤ GoInt.max_int →
  let count := messagesProcessed st + GoInt.len (Messages resp) in
  let total := if numberOfMessages <? count then count else Total (b st) in
  let st' := {| messagesProcessed := count; b := {| Total := total; value := count |} |} in
  let r := run fuel st' s3 in
  run (S fuel) st s =
    {| iterations :=
         {| before := st;
            events := [Receive params resp None; Send (batch_of resp) sendResp None;
                       Delete (deleteMessageBatch_of resp) deleteResp None;
                       Render count total];
            flow := Next st' |} :: iterations r;
       outcome := outcome r; final := final r; service := service r |}.
Proof.
  intros Hr Hne Hs Hnone Hall Hd Hclean Hpos Hmax. cbv zeta.
  pose proof (pass_moved sourceQueueURL destinationQueueURL numberOfMessages
                st s resp s1 sendResp s2 deleteResp s3 Hr Hne Hs Hnone Hall Hd Hclean) as HP.
  apply Pass_loop_body in HP. rewrite (loop_next _ _ _ _ _ _ _ _ _ HP). cbv zeta.
  unfold state_after, bar_after, render_of.
  rewrite add_in_range by (pose proof (len_nonneg (Messages resp)); lia).
  by destruct (numberOfMessages <? messagesProcessed st + GoInt.len (Messages resp)).
Qed.

Lemma Pass_calls st s fl s' evs :
  Pass' st s fl s' evs →
  ∃ resp err,
    filter (λ e, is_call e = true) evs = [Receive params resp err]
    ∨ (∃ out serr,
         filter (λ e, is_call e = true) evs
         = [Receive params resp err; Send (batch_of resp) out serr])
    ∨ (∃ out dout derr,
         filter (λ e, is_call e = true) evs
         = [Receive params resp err; Send (batch_of resp) out None;
            Delete (deleteMessageBatch_of resp) dout derr]).
Proof.
  destruct 1; do 2 eexists;
    first [ by left | by right; left; do 2 eexists | by right; right; do 3 eexists ].
Qed.

(** X4: the calls of a pass of a run, in order: a receive; or a receive and a
    forward of the batch received; or these and a delete of that batch.  No
    pass calls the service more than three times, forwards before it
    received, or deletes before it forwarded without error. *)
Theorem pass_calls_in_order fuel st s it :
  it ∈ iterations (run fuel st s) →
  ∃ resp err,
    filter (λ e, is_call e = true) (events it) = [Receive params resp err]
    ∨ (∃ out serr,
         filter (λ e, is_call e = true) (events it)
         = [Receive params resp err; Send (batch_of resp) out serr])
    ∨ (∃ out dout derr,
         filter (λ e, is_call e = true) (events it)
         = [Receive params resp err; Send (batch_of resp) out None;
            Delete (deleteMessageBatch_of resp) dout derr]).
Proof.
  intros Hit. destruct (loop_iterations_Pass _ _ _ _ _ _ _ Hit) as (s0 & s1 & HP).
  by eapply Pass_calls.
Qed.

(** X5: receive and delete requests go to the source queue and forward requests
    to the destination queue, in every pass of every run. *)
Theorem calls_go_to_their_queue fuel st s it e :
  it ∈ iterations (loop sourceQueueURL destinationQueueURL numberOfMessages fuel st s) →
  e ∈ events it →
  match e with
  | Receive input _ _ => Receive_QueueUrl input = Some sourceQueueURL
  | Send input _ _ => Send_QueueUrl input = Some destinationQueueURL
  | Delete input _ _ => Delete_QueueUrl input = Some sourceQueueURL
  | _ => True
  end.
Proof.
  intros Hit He. destruct (loop_iterations_Pass _ _ _ _ _ _ _ Hit) as (s0 & s1 & HP).
  destruct HP;
    repeat (apply elem_of_cons in He as [->|He]; [done|]);
    by apply elem_of_nil in He.
Qed.

End OtherPasses.

(** ** What the bar is shown *)

Section Rendering.
Context {σ : Type} {svc : SQSAPI σ}.
Variables (sourceQueueURL destinationQueueURL : string) (numberOfMessages : Z).

Abbreviation body := (loop_body sourceQueueURL destinationQueueURL numberOfMessages).
Abbreviation run := (loop sourceQueueURL destinationQueueURL numberOfMessages).
Abbreviation Pass' := (Pass sourceQueueURL destinationQueueURL numberOfMessages).

(** A pass renders only on its way to the closing brace, and what it renders
    is the count and the total it leaves. *)
Lemma Pass_render st s fl s' evs v t :
  Pass' st s fl s' evs →
  Render v t ∈ evs →
  ∃ st', fl = Next st' ∧ v = messagesProcessed st' ∧ t = Total (b st')
         ∧ value (b st') = messagesProcessed st'.
Proof.
  destruct 1; intros Hin;
    repeat (apply elem_of_cons in Hin as [Hin|Hin]; [try discriminate Hin|]);
    try (by apply elem_of_nil in Hin);
    injection Hin as -> ->; by eexists.
Qed.

(** Every pass of a run that starts with its variables in step starts with
    them in step. *)
Lemma loop_before_in_step fuel st s it :
  0 ≤ messagesProcessed st →
  bar_follows numberOfMessages st →
  messagesProcessed st + moved (iterations (run fuel st s)) ≤ GoInt.max_int →
  it ∈ iterations (run fuel st s) →
  0 ≤ messagesProcessed (before it)
  ∧ bar_follows numberOfMessages (before it)
  ∧ messagesProcessed (before it) + confirmed_size (events it) ≤ GoInt.max_int.
Proof.
  revert st s. induction fuel as [|fuel IH]; intros st s Hpos Hbar.
  - simpl. by intros _ ?%elem_of_nil.
  - destruct (body st s) as [[fl s'] evs] eqn:Hb.
    pose proof (loop_body_Pass _ _ _ _ _ _ _ _ Hb) as HP.
    pose proof (Pass_advances _ _ _ _ _ _ _ _ HP Hpos Hbar) as Hstep.
    destruct fl as [st'|site].
    + rewrite (loop_next _ _ _ _ _ _ _ _ _ Hb). cbv zeta. cbn [iterations].
      rewrite moved_cons. cbn [events]. intros Hmax.
      pose proof (moved_nonneg (iterations (run fuel st' s'))) as Hrest.
      destruct Hstep as (Hcount & Hpos' & Hbar' & _); [lia|].
      intros [->|Hin]%elem_of_cons; [simpl; repeat split; [done..|lia]|].
      apply (IH st' s'); [done..|lia|done].
    + rewrite (loop_return _ _ _ _ _ _ _ _ _ Hb). cbn [iterations].
      rewrite moved_cons. cbn [events]. change (moved []) with 0. intros Hmax.
      intros ->%list_elem_of_singleton. simpl. repeat split; [done..|lia].
Qed.

(** X6: in a run of [moveMessages] that moves no more messages than an [int]
    holds, every value shown on the bar is the count after the pass and is at
    most the total shown with it: line 215 never hands the bar a value above
    its total. *)
Theorem rendered_value_within_total fuel s it v t :
  let r := moveMessages sourceQueueURL destinationQueueURL numberOfMessages fuel s in
  moved (iterations r) ≤ GoInt.max_int →
  it ∈ iterations r →
  Render v t ∈ events it →
  v ≤ t ∧ ∃ st', flow it = Next st' ∧ v = messagesProcessed st' ∧ t = Total (b st').
Proof.
  cbv zeta. unfold moveMessages. intros Hmax Hit Hin.
  destruct (loop_before_in_step fuel (initial numberOfMessages) s it)
    as (Hpos & Hbar & Hfit); [done|by left|by simpl|done|].
  destruct (loop_iterations_Pass _ _ _ _ _ _ _ Hit) as (s0 & s1 & HP).
  destruct (Pass_render _ _ _ _ _ _ _ HP Hin) as (st' & Hflow & -> & -> & Hvalue).
  rewrite Hflow in HP.
  pose proof (Pass_value_within_total _ _ _ _ _ _ _ _ HP Hpos Hbar Hfit) as Hle.
  split; [lia|]. by exists st'.
Qed.

End Rendering.

(** ** Draining a queue

    The loop against the two queues in memory of [Queues]. *)

Lemma filter_none {A} (P : A → Prop) `{!∀ x, Decision (P x)} (l : list A) :
  (∀ x, x ∈ l → ¬ P x) → filter P l = [].
Proof.
  induction l as [|x l IH]; intros Hall; [done|].
  rewrite filter_cons_False by (apply Hall; left).
  apply IH. intros y Hy. apply Hall. by right.
Qed.

Lemma filter_all {A} (P : A → Prop) `{!∀ x, Decision (P x)} (l : list A) :
  (∀ x, x ∈ l → P x) → filter P l = l.
Proof.
  induction l as [|x l IH]; intros Hall; [done|].
  rewrite filter_cons_True by (apply Hall; left).
  f_equal. apply IH. intros y Hy. apply Hall. by right.
Qed.

(** Taking out what carries the key of one of the first [k] elements leaves
    the others, when no key occurs twice. *)
Lemma filter_out_taken {A K} `{!EqDecision K} (f : A → K) (k : nat) (l : list A) :
  NoDup (f <$> l) →
  filter (λ x, f x ∉ f <$> take k l) l = drop k l.
Proof.
  intros Hnodup.
  transitivity (filter (λ x, f x ∉ f <$> take k l) (take k l ++ drop k l));
    [by rewrite take_drop|].
  rewrite filter_app.
  rewrite <- (take_drop k l), fmap_app in Hnodup.
  apply NoDup_app in Hnodup as (_ & Hapart & _).
  rewrite filter_none, filter_all; [done| |].
  - intros x Hx Hin. by apply (Hapart (f x) Hin), list_elem_of_fmap_2.
  - intros x Hx Hnot. apply Hnot. by apply list_elem_of_fmap_2.
Qed.

Section Draining.
Variables (sourceQueueURL destinationQueueURL : string) (numberOfMessages : Z).

Abbreviation run := (loop sourceQueueURL destinationQueueURL numberOfMessages).
Abbreviation params := (params sourceQueueURL).
Abbreviation batch_of := (batch_of destinationQueueURL).
Abbreviation deleteMessageBatch_of := (deleteMessageBatch_of sourceQueueURL).

Lemma Queues_receive msgs d :
  ReceiveMessage params {| Queues.source := msgs; Queues.destination := d |}
  = ({| Messages := take 10 msgs |}, None,
     {| Queues.source := msgs; Queues.destination := d |}).
Proof. reflexivity. Qed.

Lemma Queues_send batch msgs d :
  NoDup (MessageId <$> batch) →
  SendMessageBatch (batch_of {| Messages := batch |})
    {| Queues.source := msgs; Queues.destination := d |}
  = ({| Send_Successful := (λ m, {| Result_Id := MessageId m |}) <$> batch;
        Send_Failed := [] |},
     None,
     {| Queues.source := msgs; Queues.destination := d ++ (send_entry_of <$> batch) |}).
Proof.
  intros Hnodup. unfold SendMessageBatch, Queues.api. simpl.
  rewrite convertToEntries_map.
  change (map (λ m, Some (send_entry_of m)) batch)
    with ((λ m, Some (send_entry_of m)) <$> batch).
  rewrite omap_id_Some, <- !list_fmap_compose.
  by rewrite bool_decide_eq_true_2.
Qed.

Lemma Queues_delete batch msgs d :
  DeleteMessageBatch (deleteMessageBatch_of {| Messages := batch |})
    {| Queues.source := msgs; Queues.destination := d |}
  = ({| Delete_Successful := (λ m, {| Result_Id := MessageId m |}) <$> batch;
        Delete_Failed := [] |},
     None,
     {| Queues.source := filter (λ m, ReceiptHandle m ∉ ReceiptHandle <$> batch) msgs;
        Queues.destination := d |}).
Proof.
  unfold DeleteMessageBatch, Queues.api. simpl.
  rewrite convertSuccessfulMessageToBatchRequestEntry_map.
  change (map (λ m, Some (delete_entry_of m)) batch)
    with ((λ m, Some (delete_entry_of m)) <$> batch).
  by rewrite omap_id_Some, <- !list_fmap_compose.
Qed.

(** From any state of the variables, with more fuel than messages. *)
Lemma loop_drains fuel msgs d st :
  NoDup (MessageId <$> msgs) →
  NoDup (ReceiptHandle <$> msgs) →
  0 ≤ messagesProcessed st →
  messagesProcessed st + GoInt.len msgs ≤ GoInt.max_int →
  (length msgs < fuel)%nat →
  let r := run fuel st {| Queues.source := msgs; Queues.destination := d |} in
  outcome r = Some Drained
  ∧ messagesProcessed (final r) = messagesProcessed st + GoInt.len msgs
  ∧ service r = {| Queues.source := [];
                   Queues.destination := d ++ (send_entry_of <$> msgs) |}.
Proof.
  cbv zeta. revert msgs d st.
  induction fuel as [|fuel IH]; intros msgs d st Hids Hhandles Hpos Hmax Hfuel; [lia|].
  destruct msgs as [|m msgs'] eqn:Hmsgs.
  - (* the queue is empty: line 161 *)
    erewrite loop_return.
    2:{ apply Pass_loop_body. eapply pass_drained; [apply Queues_receive|done]. }
    simpl. rewrite app_nil_r. unfold GoInt.len. simpl. repeat split; [lia].
  - (* a batch of up to ten messages goes through *)
    rewrite <- Hmsgs in *.
    assert (take 10 msgs ≠ []) as Hne by (by rewrite Hmsgs).
    assert (NoDup (MessageId <$> take 10 msgs)) as Hbatch.
    { rewrite fmap_take. exact (sublist_NoDup _ _ Hids (sublist_take _ _)). }
    set (batch := {| Messages := take 10 msgs |}).
    erewrite loop_next.
    2:{ apply Pass_loop_body.
        eapply (pass_moved _ _ _ _ _ batch);
          [ apply Queues_receive | done | by apply Queues_send | done
          | simpl; by rewrite length_fmap | apply Queues_delete | done ]. }
    cbv zeta. cbn [outcome final service].
    rewrite (filter_out_taken ReceiptHandle 10 msgs Hhandles).
    assert (length (take 10 msgs) + length (drop 10 msgs) = length msgs)%nat as Hsplit.
    { rewrite <- (take_drop 10 msgs) at 3. by rewrite length_app. }
    assert (0 < length (take 10 msgs))%nat as Htaken.
    { destruct (take 10 msgs); [done|simpl; lia]. }
    unfold GoInt.len in *. simpl Messages.
    destruct (IH (drop 10 msgs) (d ++ (send_entry_of <$> take 10 msgs))
                (state_after numberOfMessages
                   (GoInt.add (messagesProcessed st) (Z.of_nat (length (take 10 msgs))))
                   (b st)))
      as (Hout & Hcount & Hsvc).
    + rewrite fmap_drop. exact (sublist_NoDup _ _ Hids (sublist_drop _ _)).
    + rewrite fmap_drop. exact (sublist_NoDup _ _ Hhandles (sublist_drop _ _)).
    + simpl. rewrite add_in_range by lia. lia.
    + simpl. rewrite add_in_range by lia. lia.
    + lia.
    + split; [exact Hout|]. split.
      * rewrite Hcount. simpl. rewrite add_in_range by lia. lia.
      * rewrite Hsvc. f_equal.
        rewrite <- app_assoc, <- fmap_app. by rewrite take_drop.
Qed.

(** X9: a source queue whose messages have distinct identifiers and distinct
    receipt handles, a destination queue, and a service that answers every
    call in full: with one pass more than there are messages at most,
    [moveMessages] returns at line 164 with the source empty, the forward
    entries of all the messages appended to the destination in the order of
    the source, and [messagesProcessed] equal to their number, whatever the
    estimate. *)
Theorem moveMessages_drains_the_queue fuel msgs d :
  NoDup (MessageId <$> msgs) →
  NoDup (ReceiptHandle <$> msgs) →
  GoInt.len msgs ≤ GoInt.max_int →
  (length msgs < fuel)%nat →
  let r := moveMessages sourceQueueURL destinationQueueURL numberOfMessages fuel
             {| Queues.source := msgs; Queues.destination := d |} in
  outcome r = Some Drained
  ∧ messagesProcessed (final r) = GoInt.len msgs
  ∧ service r = {| Queues.source := [];
                   Queues.destination := d ++ (send_entry_of <$> msgs) |}.
Proof.
  intros Hids Hhandles Hfit Hfuel. cbv zeta. unfold moveMessages.
  destruct (loop_drains fuel msgs d (initial numberOfMessages))
    as (Hout & Hcount & Hsvc); try done; simpl; lia || auto.
Qed.

End Draining.

(** * Properties of the command *)

Section MainFacts.
Context {σ : Type} {svc : SQSAPI σ} {queues : Cli.SQSQueueAPI σ}.
Variable NewSessionWithOptions : string → string → option error.
Variable Atoi : string → Z * option error.

Abbreviation main' := (Cli.main NewSessionWithOptions Atoi).

(** [resolveQueueURL] makes one call; it gives the URL of the answer, or the
    empty string and the error of the call. *)
Lemma resolveQueueURL_error queueName s out e s1 :
  Cli.GetQueueUrl (Cli.name_input queueName) s = (out, Some e, s1) →
  Cli.resolveQueueURL queueName s
  = (Cli.Normal ("", Some e), s1, [Cli.GetUrl (Cli.name_input queueName) out (Some e)]).
Proof.
  intros Hcall. unfold Cli.resolveQueueURL. fold (Cli.name_input queueName).
  by rewrite Hcall.
Qed.

Lemma resolveQueueURL_found queueName s out url s1 :
  Cli.GetQueueUrl (Cli.name_input queueName) s = (out, None, s1) →
  Cli.QueueUrl out = Some url →
  Cli.resolveQueueURL queueName s
  = (Cli.Normal (url, None), s1, [Cli.GetUrl (Cli.name_input queueName) out None]).
Proof.
  intros Hcall Hurl. unfold Cli.resolveQueueURL. fold (Cli.name_input queueName).
  by rewrite Hcall, Hurl.
Qed.

(** X10: when the source queue does not resolve, [main] logs the cause and
    returns: it has made that one call, it does not ask for the destination
    queue or for the attributes, and it calls nothing on messages. *)
Theorem main_stops_at_unresolved_source flags fuel s out e s1 :
  NewSessionWithOptions (Cli.profile flags) (Cli.region flags) = None →
  Cli.GetQueueUrl (Cli.name_input (Cli.sourceQueue flags)) s = (out, Some e, s1) →
  main' flags fuel s =
    {| Cli.log := [Cli.GetUrl (Cli.name_input (Cli.sourceQueue flags)) out (Some e);
                   Cli.logged "Failed to resolve source queue" e];
       Cli.ending := Cli.Returns; Cli.transfer := None; Cli.after := s1 |}.
Proof.
  intros Hsession Hcall. unfold Cli.main.
  by rewrite Hsession, (resolveQueueURL_error _ _ _ _ _ Hcall).
Qed.

(** X11: when the source queue resolves and the destination queue does not,
    [main] logs the cause and returns after these two calls: it does not ask
    for the attributes and calls nothing on messages. *)
Theorem main_stops_at_unresolved_destination flags fuel s out url s1 out' e s2 :
  NewSessionWithOptions (Cli.profile flags) (Cli.region flags) = None →
  Cli.GetQueueUrl (Cli.name_input (Cli.sourceQueue flags)) s = (out, None, s1) →
  Cli.QueueUrl out = Some url →
  Cli.GetQueueUrl (Cli.name_input (Cli.destinationQueue flags)) s1 = (out', Some e, s2) →
  main' flags fuel s =
    {| Cli.log := [Cli.GetUrl (Cli.name_input (Cli.sourceQueue flags)) out None;
                   Cli.Info (Cli.SourceQueueURL url);
                   Cli.GetUrl (Cli.name_input (Cli.destinationQueue flags)) out' (Some e);
                   Cli.logged "Failed to resolve destination queue" e];
       Cli.ending := Cli.Returns; Cli.transfer := None; Cli.after := s2 |}.
Proof.
  intros Hsession Hsrc Hurl Hdst. unfold Cli.main.
  by rewrite Hsession, (resolveQueueURL_found _ _ _ _ _ Hsrc Hurl),
    (resolveQueueURL_error _ _ _ _ _ Hdst).
Qed.

(** X12: the error of the attributes call is never looked at (line 68): when the
    answer has no "ApproximateNumberOfMessages", as the empty answer of a
    failed call has not, line 73 reads through a nil pointer and [main]
    panics, both queues resolved and no message touched. *)
Theorem main_panics_without_the_count flags fuel s out url s1 out' url' s2 attrs err s3 :
  NewSessionWithOptions (Cli.profile flags) (Cli.region flags) = None →
  Cli.GetQueueUrl (Cli.name_input (Cli.sourceQueue flags)) s = (out, None, s1) →
  Cli.QueueUrl out = Some url →
  Cli.GetQueueUrl (Cli.name_input (Cli.destinationQueue flags)) s1 = (out', None, s2) →
  Cli.QueueUrl out' = Some url' →
  Cli.GetQueueAttributes (Cli.attributes_input url) s2 = (attrs, err, s3) →
  Cli.index (Cli.Attributes attrs) "ApproximateNumberOfMessages" = None →
  main' flags fuel s =
    {| Cli.log := [Cli.GetUrl (Cli.name_input (Cli.sourceQueue flags)) out None;
                   Cli.Info (Cli.SourceQueueURL url);
                   Cli.GetUrl (Cli.name_input (Cli.destinationQueue flags)) out' None;
                   Cli.Info (Cli.DestinationQueueURL url');
                   Cli.GetAttributes (Cli.attributes_input url) attrs err];
       Cli.ending := Cli.Panics; Cli.transfer := None; Cli.after := s3 |}.
Proof.
  intros Hsession Hsrc Hurl Hdst Hurl' Hattrs Hmissing. unfold Cli.main.
  rewrite Hsession, (resolveQueueURL_found _ _ _ _ _ Hsrc Hurl),
    (resolveQueueURL_found _ _ _ _ _ Hdst Hurl').
  fold (Cli.attributes_input url). by rewrite Hattrs, Hmissing.
Qed.

(** X13: with both queues resolved and the count read, [main] hands
    [moveMessages] the two resolved URLs and the number [strconv.Atoi] gave,
    unless that number is 0; what the transfer logs and calls follows in
    [main]'s log, and the service is left as the transfer left it. *)
Theorem main_starts_the_transfer
    flags fuel s out url s1 out' url' s2 attrs err s3 text :
  NewSessionWithOptions (Cli.profile flags) (Cli.region flags) = None →
  Cli.GetQueueUrl (Cli.name_input (Cli.sourceQueue flags)) s = (out, None, s1) →
  Cli.QueueUrl out = Some url →
  Cli.GetQueueUrl (Cli.name_input (Cli.destinationQueue flags)) s1 = (out', None, s2) →
  Cli.QueueUrl out' = Some url' →
  Cli.GetQueueAttributes (Cli.attributes_input url) s2 = (attrs, err, s3) →
  Cli.index (Cli.Attributes attrs) "ApproximateNumberOfMessages" = Some text →
  (Atoi text).1 ≠ 0 →
  let r := moveMessages url url' (Atoi text).1 fuel s3 in
  main' flags fuel s =
    {| Cli.log := [Cli.GetUrl (Cli.name_input (Cli.sourceQueue flags)) out None;
                   Cli.Info (Cli.SourceQueueURL url);
                   Cli.GetUrl (Cli.name_input (Cli.destinationQueue flags)) out' None;
                   Cli.Info (Cli.DestinationQueueURL url');
                   Cli.GetAttributes (Cli.attributes_input url) attrs err;
                   Cli.Info (Cli.ApproximateNumber text)]
                  ++ (Cli.Core <$> trace r);
       Cli.ending := Cli.Returns; Cli.transfer := Some r; Cli.after := service r |}.
Proof.
  intros Hsession Hsrc Hurl Hdst Hurl' Hattrs Htext Hcount. cbv zeta. unfold Cli.main.
  rewrite Hsession, (resolveQueueURL_found _ _ _ _ _ Hsrc Hurl),
    (resolveQueueURL_found _ _ _ _ _ Hdst Hurl').
  fold (Cli.attributes_input url). rewrite Hattrs, Htext.
  destruct (Atoi text) as [n aerr]. simpl in *. unfold main.
  destruct (Z.eqb_spec n 0); [done|]. reflexivity.
Qed.

(** X14: [main] calls nothing on messages unless the session was made, both queues
    resolved, the attributes answer carried the count and [strconv.Atoi] gave
    a number other than 0 for it; the calls are then those of
    [moveMessages] on the two resolved URLs. *)
Theorem main_touches_messages_only_in_a_transfer flags fuel s :
  Cli.message_calls (main' flags fuel s) ≠ [] →
  NewSessionWithOptions (Cli.profile flags) (Cli.region flags) = None
  ∧ ∃ out url s1 out' url' s2 attrs err s3 text,
      Cli.GetQueueUrl (Cli.name_input (Cli.sourceQueue flags)) s = (out, None, s1)
      ∧ Cli.QueueUrl out = Some url
      ∧ Cli.GetQueueUrl (Cli.name_input (Cli.destinationQueue flags)) s1 = (out', None, s2)
      ∧ Cli.QueueUrl out' = Some url'
      ∧ Cli.GetQueueAttributes (Cli.attributes_input url) s2 = (attrs, err, s3)
      ∧ Cli.index (Cli.Attributes attrs) "ApproximateNumberOfMessages" = Some text
      ∧ (Atoi text).1 ≠ 0
      ∧ Cli.transfer (main' flags fuel s)
        = Some (moveMessages url url' (Atoi text).1 fuel s3).
Proof.
  unfold Cli.main, Cli.resolveQueueURL.
  fold (Cli.name_input (Cli.sourceQueue flags)).
  fold (Cli.name_input (Cli.destinationQueue flags)).
  destruct (NewSessionWithOptions _ _) as [e|] eqn:Hsession; [done|].
  destruct (Cli.GetQueueUrl (Cli.name_input (Cli.sourceQueue flags)) s)
    as [[out [e|]] s1] eqn:Hsrc; [done|].
  destruct (Cli.QueueUrl out) as [url|] eqn:Hurl; [|done].
  destruct (Cli.GetQueueUrl (Cli.name_input (Cli.destinationQueue flags)) s1)
    as [[out' [e|]] s2] eqn:Hdst; [done|].
  destruct (Cli.QueueUrl out') as [url'|] eqn:Hurl'; [|done].
  fold (Cli.attributes_input url).
  destruct (Cli.GetQueueAttributes (Cli.attributes_input url) s2)
    as [[attrs err] s3] eqn:Hattrs.
  destruct (Cli.index (Cli.Attributes attrs) "ApproximateNumberOfMessages")
    as [text|] eqn:Htext; [|done].
  destruct (Atoi text) as [n aerr] eqn:Hatoi. unfold main.
  destruct (Z.eqb_spec n 0) as [->|Hn]; [done|].
  intros _. split; [done|].
  exists out, url, s1, out', url', s2, attrs, err, s3, text.
  rewrite Hatoi. by repeat split.
Qed.

End MainFacts.

(** X15: of the two results of [strconv.Atoi], line 73 keeps the number: two
    readings that give the same numbers make the same run of [main], whatever
    errors they report. *)
Theorem main_ignores_the_error_of_Atoi
    {σ : Type} {svc : SQSAPI σ} {queues : Cli.SQSQueueAPI σ}
    (NewSessionWithOptions : string → string → option error)
    (Atoi Atoi' : string → Z * option error) flags fuel (s : σ) :
  (∀ text, (Atoi text).1 = (Atoi' text).1) →
  Cli.main NewSessionWithOptions Atoi flags fuel s
  = Cli.main NewSessionWithOptions Atoi' flags fuel s.
Proof.
  intros Hsame. unfold Cli.main.
  repeat case_match; try done; simplify_eq.
  all: match goal with
       | H1 : ?f ?t = (_, _), H2 : ?g ?t = (_, _) |- _ =>
         pose proof (Hsame t) as Hn; rewrite H1, H2 in Hn; simpl in Hn; subst
       end.
  all: congruence.
Qed.

(** * The further properties on the sample inputs *)

Lemma receive_error_with_messages_aborts_witness :
  let r := loop "src" "dst" 40 5 Samples.somewhere Samples.receive_torn in
  outcome r = Some ReceiveFailed
  ∧ final r = Samples.somewhere
  ∧ calls r = [Receive (params "src") {| Messages := [Samples.m1; Samples.m2] |}
                 (Some Samples.unreachable)].
Proof.
  cbv zeta.
  rewrite (receive_error_with_messages_aborts (svc := Scripted.api) "src" "dst" 40 4
             Samples.somewhere Samples.receive_torn
             {| Messages := [Samples.m1; Samples.m2] |} Samples.unreachable
             {| Scripted.receives := []; Scripted.sends := []; Scripted.deletes := [] |}
             ltac:(reflexivity) ltac:(discriminate)).
  by repeat split.
Defined.

Lemma forward_with_failed_entries_aborts_witness :
  let r := loop "src" "dst" 40 5 Samples.somewhere Samples.forward_partial in
  outcome r = Some EnqueueFailed
  ∧ final r = Samples.somewhere
  ∧ filter (λ ev, is_delete ev = true) (calls r) = [].
Proof.
  cbv zeta.
  rewrite (forward_with_failed_entries_aborts (svc := Scripted.api) "src" "dst" 40 4
             Samples.somewhere Samples.forward_partial
             {| Messages := [Samples.m1; Samples.m2] |}
             {| Scripted.receives := [];
                Scripted.sends := Scripted.sends Samples.forward_partial;
                Scripted.deletes := [] |}
             {| Send_Successful := [Samples.ok Samples.m1];
                Send_Failed := [Samples.ko Samples.m2] |}
             {| Scripted.receives := []; Scripted.sends := []; Scripted.deletes := [] |}
             ltac:(reflexivity) ltac:(discriminate) ltac:(reflexivity) ltac:(discriminate)).
  by repeat split.
Defined.

Lemma full_pass_counts_the_batch_witness :
  let r := loop "src" "dst" 30 5 Samples.somewhere Samples.one in
  (λ it, (messagesProcessed (before it), flow it)) <$> iterations r !! 0%nat
  = Some (30, Next {| messagesProcessed := 31; b := {| Total := 31; value := 31 |} |}).
Proof.
  cbv zeta.
  rewrite (full_pass_counts_the_batch (svc := Queues.api) "src" "dst" 30 4
             Samples.somewhere Samples.one
             Samples.received_one Samples.one
             Samples.forwarded_one
             {| Queues.source := [Samples.m1];
                Queues.destination := [send_entry_of Samples.m1] |}
             Samples.deleted_one
             {| Queues.source := [];
                Queues.destination := [send_entry_of Samples.m1] |}
             ltac:(reflexivity) ltac:(discriminate) ltac:(reflexivity)
             ltac:(reflexivity) ltac:(reflexivity) ltac:(reflexivity)
             ltac:(reflexivity) ltac:(simpl; lia) ltac:(by vm_compute)).
  reflexivity.
Defined.

Lemma pass_calls_in_order_witness :
  ∃ resp err,
    filter (λ e, is_call e = true) (events Samples.first_pass)
    = [Receive (params "src") resp err]
    ∨ (∃ out serr,
         filter (λ e, is_call e = true) (events Samples.first_pass)
         = [Receive (params "src") resp err; Send (batch_of "dst" resp) out serr])
    ∨ (∃ out dout derr,
         filter (λ e, is_call e = true) (events Samples.first_pass)
         = [Receive (params "src") resp err; Send (batch_of "dst" resp) out None;
            Delete (deleteMessageBatch_of "src" resp) dout derr]).
Proof.
  apply (pass_calls_in_order (svc := Queues.api) "src" "dst" 1 5 (initial 1) Samples.one).
  vm_compute. apply list_elem_of_here.
Defined.

Lemma calls_go_to_their_queue_witness :
  Delete_QueueUrl (deleteMessageBatch_of "src" Samples.received_one) = Some "src".
Proof.
  apply (calls_go_to_their_queue (svc := Queues.api) "src" "dst" 1 5 (initial 1)
           Samples.one Samples.first_pass
           (Delete (deleteMessageBatch_of "src" Samples.received_one)
                   Samples.deleted_one None)).
  - vm_compute. apply list_elem_of_here.
  - do 2 apply list_elem_of_further. apply list_elem_of_here.
Defined.

Lemma rendered_value_within_total_witness :
  1 ≤ 1 ∧ ∃ st', flow Samples.first_pass = Next st'
                 ∧ 1 = messagesProcessed st' ∧ 1 = Total (b st').
Proof.
  apply (rendered_value_within_total (svc := Queues.api) "src" "dst" 1 5
           Samples.one Samples.first_pass 1 1).
  - by vm_compute.
  - vm_compute. apply list_elem_of_here.
  - do 3 apply list_elem_of_further. apply list_elem_of_here.
Defined.


Lemma drained_run_reports_numberOfMessages_witness :
  ∃ it, last (iterations (loop "src" "dst" 5 10 (initial 5) Samples.twelve)) = Some it
        ∧ reported (events it) = Some 5.
Proof.
  apply (drained_run_reports_numberOfMessages (svc := Queues.api) "src" "dst" 5 10
           (initial 5) Samples.twelve).
  by vm_compute.
Defined.

Lemma moveMessages_drains_the_queue_witness :
  let r := moveMessages "src" "dst" 5 13 Samples.twelve in
  outcome r = Some Drained
  ∧ messagesProcessed (final r) = GoInt.len (Queues.source Samples.twelve)
  ∧ service r = {| Queues.source := [];
                   Queues.destination :=
                     [] ++ (send_entry_of <$> Queues.source Samples.twelve) |}.
Proof.
  apply (moveMessages_drains_the_queue "src" "dst" 5 13
           (Queues.source Samples.twelve) []).
  - apply (bool_decide_unpack _). by vm_compute.
  - apply (bool_decide_unpack _). by vm_compute.
  - by vm_compute.
  - simpl. lia.
Defined.

Lemma main_stops_at_unresolved_source_witness :
  let r := Cli.main Account.NewSessionWithOptions Account.Atoi Samples.flags 5
             Samples.account_without_queues in
  Cli.ending r = Cli.Returns
  ∧ Cli.transfer r = None
  ∧ length (Cli.queue_calls r) = 1%nat
  ∧ Cli.message_calls r = [].
Proof.
  cbv zeta.
  rewrite (main_stops_at_unresolved_source
             (svc := Account.messages) (queues := Account.admin)
             Account.NewSessionWithOptions Account.Atoi Samples.flags 5
             Samples.account_without_queues
             {| Cli.QueueUrl := None |} Account.unknown_queue
             Samples.account_without_queues
             ltac:(reflexivity) ltac:(by vm_compute)).
  by repeat split.
Defined.

Lemma main_stops_at_unresolved_destination_witness :
  let r := Cli.main Account.NewSessionWithOptions Account.Atoi Samples.flags 5
             Samples.account_without_destination in
  Cli.ending r = Cli.Returns
  ∧ Cli.transfer r = None
  ∧ length (Cli.queue_calls r) = 2%nat
  ∧ Cli.message_calls r = [].
Proof.
  cbv zeta.
  rewrite (main_stops_at_unresolved_destination
             (svc := Account.messages) (queues := Account.admin)
             Account.NewSessionWithOptions Account.Atoi Samples.flags 5
             Samples.account_without_destination
             {| Cli.QueueUrl := Some "https://sqs/dead-letters" |}
             "https://sqs/dead-letters"
             Samples.account_without_destination
             {| Cli.QueueUrl := None |} Account.unknown_queue
             Samples.account_without_destination
             ltac:(reflexivity) ltac:(by vm_compute) ltac:(reflexivity)
             ltac:(by vm_compute)).
  by repeat split.
Defined.

Lemma main_panics_without_the_count_witness :
  let r := Cli.main Account.NewSessionWithOptions Account.Atoi Samples.flags 5
             Samples.account_without_attributes in
  Cli.ending r = Cli.Panics
  ∧ Cli.transfer r = None
  ∧ length (Cli.queue_calls r) = 3%nat
  ∧ Cli.message_calls r = [].
Proof.
  cbv zeta.
  rewrite (main_panics_without_the_count
             (svc := Account.messages) (queues := Account.admin)
             Account.NewSessionWithOptions Account.Atoi Samples.flags 5
             Samples.account_without_attributes
             {| Cli.QueueUrl := Some "https://sqs/dead-letters" |}
             "https://sqs/dead-letters"
             Samples.account_without_attributes
             {| Cli.QueueUrl := Some "https://sqs/orders" |}
             "https://sqs/orders"
             Samples.account_without_attributes
             {| Cli.Attributes := ∅ |} None
             Samples.account_without_attributes
             ltac:(reflexivity) ltac:(by vm_compute) ltac:(reflexivity)
             ltac:(by vm_compute) ltac:(reflexivity) ltac:(reflexivity)
             ltac:(reflexivity)).
  by repeat split.
Defined.

Lemma main_starts_the_transfer_witness :
  let r := Cli.main Account.NewSessionWithOptions Account.Atoi Samples.flags 5
             Samples.account in
  Cli.ending r = Cli.Returns
  ∧ Cli.transfer r
    = Some (moveMessages "https://sqs/dead-letters" "https://sqs/orders" 12 5
              Samples.account).
Proof.
  cbv zeta.
  rewrite (main_starts_the_transfer
             (svc := Account.messages) (queues := Account.admin)
             Account.NewSessionWithOptions Account.Atoi Samples.flags 5
             Samples.account
             {| Cli.QueueUrl := Some "https://sqs/dead-letters" |}
             "https://sqs/dead-letters"
             Samples.account
             {| Cli.QueueUrl := Some "https://sqs/orders" |}
             "https://sqs/orders"
             Samples.account
             {| Cli.Attributes := Account.attributes Samples.account |} None
             Samples.account "12"
             ltac:(reflexivity) ltac:(by vm_compute) ltac:(reflexivity)
             ltac:(by vm_compute) ltac:(reflexivity) ltac:(reflexivity)
             ltac:(by vm_compute) ltac:(by vm_compute)).
  by split.
Defined.

Lemma main_touches_messages_only_in_a_transfer_witness :
  Account.NewSessionWithOptions (Cli.profile Samples.flags) (Cli.region Samples.flags)
  = None.
Proof.
  apply (main_touches_messages_only_in_a_transfer
           (svc := Account.messages) (queues := Account.admin)
           Account.NewSessionWithOptions Account.Atoi Samples.flags 5 Samples.account).
  by vm_compute.
Defined.

Lemma main_ignores_the_error_of_Atoi_witness :
  Cli.main Account.NewSessionWithOptions Account.Atoi Samples.flags 5 Samples.account
  = Cli.main Account.NewSessionWithOptions (λ text, ((Account.Atoi text).1, None))
      Samples.flags 5 Samples.account.
Proof.
  apply (main_ignores_the_error_of_Atoi
           (svc := Account.messages) (queues := Account.admin)).
  reflexivity.
Defined.
